(** * NUMA-DP memory pool: a shallow embedding of [src/mempool/mempool.c]

    The development follows the C file function by function.  Integers of
    type [size_t] are unsigned 64-bit values and [int] is a signed 32-bit
    value; both are carried by [Z] with the wrap-around of the C arithmetic
    written out.  Pointers are carried by [Z] as well, [NULL] being [0].
    Calls into libnuma, libc and pthreads are not part of the repository:
    their results are inputs of the model ([platform], [node_env]) and the
    calls that acquire or give back memory are recorded in a trace of
    [event]s.

    The C file is read as it is meant where it does not type-check:
    [sys->pools[node]->base] in [mempool_system_destroy] is [.base], and
    [free(args)] in [ndp_mempool_init] is [free(t_args)]. *)

From Stdlib Require Import ZArith Lia Bool List.
From stdpp Require Import base tactics option list.
Import ListNotations.

Local Open Scope Z_scope.

(** ** Machine integers *)

Module Word.

(** Conversion to [size_t] (reduction modulo 2^64). *)
Definition wrap64 (z : Z) : Z := z mod 2 ^ 64.

(** Conversion to [int] (32 bits, two's complement). *)
Definition to_int (z : Z) : Z := (z + 2 ^ 31) mod 2 ^ 32 - 2 ^ 31.

(** The [~] operator on a [size_t]. *)
Definition not64 (z : Z) : Z := wrap64 (Z.lnot z).

(** A value that fits a [size_t]. *)
Definition is_size_t (z : Z) : Prop := 0 <= z < 2 ^ 64.

(** Powers of two that fit a [size_t]. *)
Definition is_pow2 (a : Z) : Prop := exists k, 0 <= k < 64 /\ a = 2 ^ k.

End Word.

Import Word.

(** ** Data model (mempool.h) *)

Definition NULL : Z := 0.

(** [struct mempool_node]. *)
Record mempool_node := MempoolNode {
  base : Z;
  size : Z;
  offset : Z;
  node : Z
}.

(** [struct mempool_sys]; [pools] is [None] when the pointer is [NULL]. *)
Record mempool_sys := MempoolSys {
  pools : option (list mempool_node);
  num_nodes : Z;
  pool_size : Z
}.

(** [struct thread_args]; [pool] is the index of the descriptor
    [&sys->pools[node]] the thread writes to. *)
Record thread_args := ThreadArgs {
  pool : nat;
  ta_node : Z;
  ta_size : Z
}.

(** The macro [align_up(x, a)], expanded in [size_t] arithmetic:
    [((x + a - 1) & ~(a - 1))]. *)
Definition align_up (x a : Z) : Z :=
  Z.land (wrap64 (x + a - 1)) (not64 (wrap64 (a - 1))).

(** Calls whose balance matters for the ownership of the pinned regions. *)
Inductive event :=
| EvNumaAlloc (addr sz nd : Z)
| EvMlock (addr sz : Z)
| EvMunlock (addr sz : Z)
| EvNumaFree (addr sz : Z)
| EvFreePools.

(** ** The bump allocator *)

Definition set_offset (p : mempool_node) (o : Z) : mempool_node :=
  {| base := base p; size := size p; offset := o; node := node p |}.

Definition set_pools (sys : mempool_sys) (ps : list mempool_node) : mempool_sys :=
  {| pools := Some ps; num_nodes := num_nodes sys; pool_size := pool_size sys |}.

(** The local [a] of [ndp_mempool_alloc_on_node]: [align ? align : 1]. *)
Definition alloc_align (align : Z) : Z := if align =? 0 then 1 else align.

(** The local [size]: [int size = sys->pool_size]. *)
Definition alloc_size (sys : mempool_sys) : Z := to_int (pool_size sys).

(** The local [off]. *)
Definition alloc_off (p : mempool_node) (align : Z) : Z :=
  align_up (offset p) (alloc_align align).

(** The expression [off + size], the [int] being converted to [size_t]. *)
Definition alloc_end (sys : mempool_sys) (p : mempool_node) (align : Z) : Z :=
  wrap64 (alloc_off p align + alloc_size sys).

(** [ndp_mempool_alloc_on_node].  The result is the returned pointer and
    the registry after the call; [None] stands for an access outside the
    [pools] array (or through a [NULL] array), which C leaves undefined. *)
Definition ndp_mempool_alloc_on_node (sys : mempool_sys) (nd align : Z)
  : option (Z * mempool_sys) :=
  if (nd <? 0) || (nd >=? num_nodes sys) then Some (NULL, sys)
  else
    match pools sys with
    | None => None
    | Some ps =>
        match ps !! Z.to_nat nd with
        | None => None
        | Some p =>
            let off := alloc_off p align in
            if alloc_end sys p align >? size p then Some (NULL, sys)
            else
              Some (wrap64 (base p + off),
                    set_pools sys
                      (<[Z.to_nat nd := set_offset p (alloc_end sys p align)]> ps))
        end
    end.

(** The registry of the concrete scenario: two nodes of 1,048,576 bytes. *)
Definition MiB : Z := 1048576.

Definition scenario_pool (b nd : Z) : mempool_node :=
  {| base := b; size := MiB; offset := 0; node := nd |}.

Definition scenario_sys : mempool_sys :=
  {| pools := Some [scenario_pool 4096 0; scenario_pool 8388608 1];
     num_nodes := 2;
     pool_size := MiB |}.

(** ** Bootstrap of one node *)

(** What the platform answers to the calls of one bootstrap thread. *)
Record node_env := NodeEnv {
  cpumask : Z;           (* numa_allocate_cpumask(), NULL on failure *)
  node_to_cpus : Z;      (* numa_node_to_cpus(node, bm) *)
  sched_setaffinity : Z; (* numa_sched_setaffinity(0, bm) *)
  alloc_onnode : Z;      (* numa_alloc_onnode(size, node), NULL on failure *)
  mlock : Z              (* mlock(addr, size) *)
}.

(** [ndp_bind_thread_to_node]. *)
Definition ndp_bind_thread_to_node (e : node_env) : Z :=
  if cpumask e =? NULL then -1
  else if negb (node_to_cpus e =? 0) then -1
  else if sched_setaffinity e =? 0 then 0
  else -1.

(** [ndp_bind_worker_node]. *)
Definition ndp_bind_worker_node (e : node_env) : Z := ndp_bind_thread_to_node e.

(** [ndp_node_init_thread]: the value given to [pthread_exit], the [pools]
    array after the thread has run (it writes through [a->pool] only on
    the success path) and the calls it made.  [warm_pages] writes zeroes
    into the fresh region and touches nothing of the registry. *)
Definition ndp_node_init_thread (e : node_env) (a : thread_args)
    (ps : list mempool_node) : Z * list mempool_node * list event :=
  if ndp_bind_thread_to_node e <? 0 then (-1, ps, [])
  else
    let addr := alloc_onnode e in
    if addr =? NULL then (-1, ps, [])
    else if negb (mlock e =? 0) then
      (-1, ps, [EvNumaAlloc addr (ta_size a) (ta_node a);
                EvNumaFree addr (ta_size a)])
    else
      (0,
       <[pool a := {| base := addr; size := ta_size a; offset := 0;
                      node := ta_node a |}]> ps,
       [EvNumaAlloc addr (ta_size a) (ta_node a); EvMlock addr (ta_size a)]).

(** ** Lifecycle: init and destroy *)

(** What the platform answers during [ndp_mempool_init]. *)
Record platform := Platform {
  numa_available : Z;
  numa_max_node : Z;
  numa_node_size : Z;          (* numa_node_size(0, &nfree) *)
  calloc_pools : bool;         (* calloc of sys->pools gives a non-NULL array *)
  calloc_scratch : bool;       (* calloc of threads and t_args succeed *)
  pool_size_addr : Z;          (* the pointer &sys->pool_size *)
  pthread_create : nat -> Z;   (* return code of pthread_create for a node *)
  node_platform : nat -> node_env
}.

(** A descriptor as [calloc] leaves it. *)
Definition zero_node : mempool_node :=
  {| base := NULL; size := 0; offset := 0; node := 0 |}.

(** *** The block behind [sys->pools]

    [sys->pools = calloc(sys->num_nodes, sizeof(sys->pool_size))] is a
    zeroed block of [8 * num_nodes] bytes, while [pools[i]] is addressed
    as a [struct mempool_node] of 32 bytes at byte [32 * i]: [base] in
    bytes 0 to 7 of it, [size] in 8 to 15, [offset] in 16 to 23 and
    [node] in 24 to 27. *)
Definition POOLS_ELEM_BYTES : Z := 8.
Definition NODE_BYTES : Z := 32.
Definition BASE_END : Z := 8.
Definition SIZE_END : Z := 16.
Definition OFFSET_END : Z := 24.
Definition NODE_END : Z := 28.

(** The bytes of [pools[i]] before [field_end] lie inside the block of a
    registry of [n] nodes. *)
Definition in_block (n i : nat) (field_end : Z) : bool :=
  NODE_BYTES * Z.of_nat i + field_end <=? POOLS_ELEM_BYTES * Z.of_nat n.

(** The state of the bootstrap: the descriptors addressed as [pools[0]]
    to [pools[n-1]] (each access to one is checked against the block with
    [in_block]), the [threads] array (an entry is [Some v] once
    [pthread_create] has filled it with a thread that exits with [v], and
    [None] while it is as [calloc] left it) and the calls made so far.
    The threads write to distinct descriptors, so they are run one after
    the other in the order of their creation. *)
Record boot := Boot {
  b_pools : list mempool_node;
  b_threads : list (option Z);
  b_trace : list event
}.

(** The arguments stored in [t_args[node]]; the [size] field receives the
    pointer [&sys->pool_size] converted to [size_t]. *)
Definition t_arg (pf : platform) (i : nat) : thread_args :=
  {| pool := i; ta_node := Z.of_nat i; ta_size := wrap64 (pool_size_addr pf) |}.

(** Body of the first loop of [ndp_mempool_init], for a registry of [n]
    nodes; [None] when the thread it creates writes its descriptor (up to
    the [node] field) beyond the block. *)
Definition spawn_node (pf : platform) (n : nat) (st : boot) (i : nat)
  : option boot :=
  if negb (pthread_create pf i =? 0) then Some st (* continue *)
  else
    let '(rv, ps, tr) :=
      ndp_node_init_thread (node_platform pf i) (t_arg pf i) (b_pools st) in
    if (rv =? 0) && negb (in_block n i NODE_END) then None
    else
      Some {| b_pools := ps;
              b_threads := <[i := Some rv]> (b_threads st);
              b_trace := b_trace st ++ tr |}.

(** The first loop over the nodes of [l]. *)
Fixpoint spawn_loop (pf : platform) (n : nat) (l : list nat) (st : boot)
  : option boot :=
  match l with
  | [] => Some st
  | i :: l' =>
      match spawn_node pf n st i with
      | None => None
      | Some st' => spawn_loop pf n l' st'
      end
  end.

(** Body of the second loop: [pthread_join] stores the exit value of a
    created thread in [retval], and [ok] becomes -1 when it is not 0.
    Joining a handle that [pthread_create] never filled in is undefined
    ([None]). *)
Definition join_node (threads : list (option Z)) (ok : Z) (i : nat)
  : option Z :=
  match threads !! i with
  | Some (Some retval) => Some (if negb (retval =? 0) then -1 else ok)
  | _ => None
  end.

(** The second loop over the nodes of [l]. *)
Fixpoint join_loop (threads : list (option Z)) (l : list nat) (ok : Z)
  : option Z :=
  match l with
  | [] => Some ok
  | i :: l' =>
      match join_node threads ok i with
      | None => None
      | Some ok' => join_loop threads l' ok'
      end
  end.

(** [for (int node = 0; node < count; node++)] reading [pools[node]] and
    performing the calls [f] makes for it; [None] when an index falls
    outside the array. *)
Fixpoint for_nodes (f : mempool_node -> list event) (ps : list mempool_node)
    (nd count : nat) : option (list event) :=
  match count with
  | O => Some []
  | S c =>
      match ps !! nd with
      | None => None
      | Some p =>
          match for_nodes f ps (S nd) c with
          | None => None
          | Some tr => Some (f p ++ tr)
          end
      end
  end.

(** Body of the rollback loop of [ndp_mempool_init]. *)
Definition rollback_node (sys_pool_size : Z) (p : mempool_node) : list event :=
  if base p =? NULL then []
  else [EvMunlock (base p) sys_pool_size; EvNumaFree (base p) (size p)].

(** The rollback loop of [ndp_mempool_init] on the block of a registry of
    [n] nodes: it reads [pools[node].base], and [pools[node].size] when
    the base is not [NULL]; [None] when a read falls beyond the block. *)
Fixpoint rollback_loop (n : nat) (sys_pool_size : Z) (ps : list mempool_node)
    (nd count : nat) : option (list event) :=
  match count with
  | O => Some []
  | S c =>
      if negb (in_block n nd BASE_END) then None
      else
        match ps !! nd with
        | None => None
        | Some p =>
            if negb (base p =? NULL) && negb (in_block n nd SIZE_END) then None
            else
              match rollback_loop n sys_pool_size ps (S nd) c with
              | None => None
              | Some tr => Some (rollback_node sys_pool_size p ++ tr)
              end
        end
  end.

(** Body of the loop of [mempool_system_destroy]. *)
Definition destroy_node (p : mempool_node) : list event :=
  if base p =? NULL then [] (* continue *)
  else [EvMunlock (base p) (size p); EvNumaFree (base p) (size p)].

(** [calloc(sys->num_nodes, ...)]: a negative count, converted to an
    enormous [size_t], cannot be served. *)
Definition calloc_ok (pf : platform) (count : Z) : bool :=
  calloc_pools pf && (0 <=? count).

(** The arrays as [calloc] leaves them: zeroed.  The list of descriptors
    has one entry for each index the loops address; what lies beyond the
    block is reached by no defined run, each access being checked with
    [in_block] before it is made. *)
Definition boot0 (n : nat) : boot :=
  {| b_pools := replicate n zero_node;
     b_threads := replicate n None;
     b_trace := [] |}.

(** The first loop, over the zeroed arrays. *)
Definition spawn_all (pf : platform) (n : nat) : option boot :=
  spawn_loop pf n (seq 0 n) (boot0 n).

(** The second loop; the result is the final value of [ok]. *)
Definition join_all (threads : list (option Z)) (n : nat) : option Z :=
  join_loop threads (seq 0 n) 0.

(** [ndp_mempool_init]: the returned code, the registry and the calls
    made.  [None] stands for undefined behaviour: a dereference of a
    [NULL] scratch array, a write or a read beyond the block of
    [sys->pools], or a join of a thread that was never created. *)
Definition ndp_mempool_init (pf : platform) (sys : mempool_sys)
  : option (Z * mempool_sys * list event) :=
  if numa_available pf <? 0 then Some (-1, sys, [])
  else
    let nnodes := numa_max_node pf in
    let nsize := to_int (numa_node_size pf) in
    if nsize =? -1 then Some (-1, sys, [])
    else
      let psz := wrap64 nsize in
      if negb (calloc_ok pf nnodes) then
        Some (-1, {| pools := None; num_nodes := nnodes; pool_size := psz |}, [])
      else
        let n := Z.to_nat nnodes in
        if negb (calloc_scratch pf) && negb (n =? 0)%nat then None
        else
          match spawn_all pf n with
          | None => None
          | Some st =>
              match join_all (b_threads st) n with
              | None => None
              | Some ok =>
                  if negb (ok =? 0) then
                    match rollback_loop n psz (b_pools st) 0 n with
                    | None => None
                    | Some tr =>
                        Some (-1,
                              {| pools := None; num_nodes := 0;
                                 pool_size := psz |},
                              b_trace st ++ tr ++ [EvFreePools])
                    end
                  else
                    Some (0,
                          {| pools := Some (b_pools st); num_nodes := nnodes;
                             pool_size := psz |},
                          b_trace st)
              end
          end.

(** [mempool_system_destroy]. *)
Definition mempool_system_destroy (sys : mempool_sys)
  : option (mempool_sys * list event) :=
  match pools sys with
  | None => Some (sys, [])
  | Some ps =>
      match for_nodes destroy_node ps 0 (Z.to_nat (num_nodes sys)) with
      | None => None
      | Some tr =>
          Some ({| pools := None; num_nodes := 0; pool_size := 0 |},
                tr ++ [EvFreePools])
      end
  end.

(** ** Concrete registries and platforms used in the examples *)

(** A healthy node whose region is at [addr]. *)
Definition healthy (addr : Z) : node_env :=
  {| cpumask := 1; node_to_cpus := 0; sched_setaffinity := 0;
     alloc_onnode := addr; mlock := 0 |}.

(** A platform reporting 2 and 1,048,576 bytes for node 0. *)
Definition plat2 (create : nat -> Z) (env : nat -> node_env) : platform :=
  {| numa_available := 0; numa_max_node := 2; numa_node_size := MiB;
     calloc_pools := true; calloc_scratch := true;
     pool_size_addr := 140737488351232;
     pthread_create := create; node_platform := env |}.

(** The registry [mempool_system_destroy] leaves behind. *)
Definition empty_sys : mempool_sys :=
  {| pools := None; num_nodes := 0; pool_size := 0 |}.

(** A pool with 128 bytes left, served 128 bytes at a time. *)
Definition tight_pool : mempool_node :=
  {| base := 4096; size := 192; offset := 64; node := 0 |}.

Definition tight_sys : mempool_sys :=
  {| pools := Some [tight_pool]; num_nodes := 1; pool_size := 128 |}.

(** The same pool served 64 bytes at a time. *)
Definition roomy_sys : mempool_sys :=
  {| pools := Some [tight_pool]; num_nodes := 1; pool_size := 64 |}.

(** A full pool that ends 8192 bytes below the top of the [size_t] range. *)
Definition huge_pool : mempool_node :=
  {| base := 4096; size := 2 ^ 64 - 8192; offset := 2 ^ 64 - 8192; node := 0 |}.

Definition huge_sys : mempool_sys :=
  {| pools := Some [huge_pool]; num_nodes := 1; pool_size := 64 |}.

(** A page-sized pool, 128 bytes of which are in use. *)
Definition page_pool : mempool_node :=
  {| base := 4096; size := 4096; offset := 128; node := 0 |}.

Definition page_sys : mempool_sys :=
  {| pools := Some [page_pool]; num_nodes := 1; pool_size := 64 |}.


(** A node on which [mlock] is refused. *)
Definition unpinnable (addr : Z) : node_env :=
  {| cpumask := 1; node_to_cpus := 0; sched_setaffinity := 0;
     alloc_onnode := addr; mlock := -1 |}.

(** Two nodes; node 1 cannot pin its region. *)
Definition plat_pin1 : platform :=
  plat2 (fun _ => 0)
        (fun i => if (i =? 1)%nat then unpinnable 12288
                  else healthy (Z.of_nat (S i) * 4096)).

(** A platform reporting 1 and 1,048,576 bytes for node 0. *)
Definition plat1 (create : nat -> Z) (env : nat -> node_env) : platform :=
  {| numa_available := 0; numa_max_node := 1; numa_node_size := MiB;
     calloc_pools := true; calloc_scratch := true;
     pool_size_addr := 140737488351232;
     pthread_create := create; node_platform := env |}.

(** The thread of node 0 is created and cannot pin its region. *)
Definition plat_one_fail : platform :=
  plat1 (fun _ => 0) (fun _ => unpinnable 12288).


(** The thread of node 0 is created and succeeds. *)
Definition plat_one_ok : platform :=
  plat1 (fun _ => 0) (fun _ => healthy 4096).

(** A full pool that ends at the top of the [size_t] range. *)
Definition brim_pool : mempool_node :=
  {| base := 32; size := 2 ^ 64 - 64; offset := 2 ^ 64 - 64; node := 0 |}.

Definition brim_sys : mempool_sys :=
  {| pools := Some [brim_pool]; num_nodes := 1; pool_size := 64 |}.

(** ** What one node contributes to the bootstrap *)

(** The thread of node [i] was created. *)
Definition started (pf : platform) (i : nat) : bool := pthread_create pf i =? 0.

(** The value the thread of node [i] exits with. *)
Definition exit_of (pf : platform) (i : nat) : Z :=
  (ndp_node_init_thread (node_platform pf i) (t_arg pf i) []).1.1.

(** The calls made by the thread of node [i]. *)
Definition thread_events (pf : platform) (i : nat) : list event :=
  (ndp_node_init_thread (node_platform pf i) (t_arg pf i) []).2.

(** Node [i] was bootstrapped: its thread was created and exited with 0. *)
Definition booted (pf : platform) (i : nat) : bool :=
  started pf i && (exit_of pf i =? 0).

(** The descriptor a bootstrapped node publishes. *)
Definition live_pool (pf : platform) (i : nat) : mempool_node :=
  {| base := alloc_onnode (node_platform pf i);
     size := wrap64 (pool_size_addr pf);
     offset := 0;
     node := Z.of_nat i |}.

Definition boot_pool (pf : platform) (i : nat) : mempool_node :=
  if booted pf i then live_pool pf i else zero_node.

Definition boot_thread (pf : platform) (i : nat) : option Z :=
  if started pf i then Some (exit_of pf i) else None.

Definition boot_events (pf : platform) (i : nat) : list event :=
  if started pf i then thread_events pf i else [].

(** The number of iterations of the loops, and the value stored in
    [sys->pool_size]. *)
Definition boot_n (pf : platform) : nat := Z.to_nat (numa_max_node pf).

Definition boot_psz (pf : platform) : Z := wrap64 (to_int (numa_node_size pf)).

(** Every thread that would write its descriptor finds it inside the
    block. *)
Definition spawn_fits (pf : platform) (n : nat) (l : list nat) : bool :=
  forallb (fun i => negb (booted pf i) || in_block n i NODE_END) l.

(** Every thread of [l] was created. *)
Definition all_started (pf : platform) (l : list nat) : bool :=
  forallb (started pf) l.

(** The number of nodes of the platform: libnuma numbers the nodes from 0
    and [numa_max_node()] is the highest number. *)
Definition node_count (pf : platform) : Z := numa_max_node pf + 1.

(** Every thread of [l] exited with 0. *)
Definition all_exit_zero (pf : platform) (l : list nat) : bool :=
  forallb (fun i => exit_of pf i =? 0) l.

(** The state of the bootstrap of [n] nodes once the first loop has
    passed the nodes below [m]. *)
Definition boot_after (pf : platform) (n m : nat) : boot :=
  {| b_pools := map (boot_pool pf) (seq 0 m) ++ replicate (n - m) zero_node;
     b_threads := map (boot_thread pf) (seq 0 m) ++ replicate (n - m) None;
     b_trace := concat (map (boot_events pf) (seq 0 m)) |}.

(** The platform lets [ndp_mempool_init] pass its three early exits. *)
Definition reaches_boot (pf : platform) : Prop :=
  0 <= numa_available pf /\
  to_int (numa_node_size pf) <> -1 /\
  calloc_pools pf = true.

(** ** Accounting of regions and pins *)

(** +1 for a region obtained at [a], -1 for a region given back at [a]. *)
Definition region_weight (a : Z) (e : event) : Z :=
  match e with
  | EvNumaAlloc a' _ _ => if a' =? a then 1 else 0
  | EvNumaFree a' _ => if a' =? a then -1 else 0
  | _ => 0
  end.

(** +1 for a pin placed at [a], -1 for a pin lifted at [a]. *)
Definition pin_weight (a : Z) (e : event) : Z :=
  match e with
  | EvMlock a' _ => if a' =? a then 1 else 0
  | EvMunlock a' _ => if a' =? a then -1 else 0
  | _ => 0
  end.

Fixpoint net (w : event -> Z) (tr : list event) : Z :=
  match tr with
  | [] => 0
  | e :: tr' => w e + net w tr'
  end.


(** The same, for a region or a pin of a given length only. *)
Definition region_weight_sized (a len : Z) (e : event) : Z :=
  match e with
  | EvNumaAlloc a' l' _ => if (a' =? a) && (l' =? len) then 1 else 0
  | EvNumaFree a' l' => if (a' =? a) && (l' =? len) then -1 else 0
  | _ => 0
  end.

Definition pin_weight_sized (a len : Z) (e : event) : Z :=
  match e with
  | EvMlock a' l' => if (a' =? a) && (l' =? len) then 1 else 0
  | EvMunlock a' l' => if (a' =? a) && (l' =? len) then -1 else 0
  | _ => 0
  end.

(** Every region obtained was given back, and every pin lifted, with the
    length it was obtained or placed with. *)
Definition settled (tr : list event) : Prop :=
  forall a len,
    net (region_weight_sized a len) tr = 0 /\
    net (pin_weight_sized a len) tr = 0.

(** ** Predicates used by the statements *)

(** [0 <= cursor <= capacity]. *)
Definition pool_inv (p : mempool_node) : Prop := 0 <= offset p <= size p.

Definition sys_inv (sys : mempool_sys) : Prop :=
  forall ps, pools sys = Some ps -> Forall pool_inv ps.

(** The array has one descriptor per node. *)
Definition sys_wf (sys : mempool_sys) : Prop :=
  forall ps, pools sys = Some ps -> Z.of_nat (length ps) = num_nodes sys.

(** [off] is the first multiple of [a] at or after [cursor]. *)
Definition first_aligned (cursor a off : Z) : Prop :=
  cursor <= off /\ off mod a = 0 /\
  forall m, cursor <= m -> m mod a = 0 -> off <= m.

(** The [size_t] arithmetic of one allocation stays below 2^64 and the
    amount added to the cursor is not negative. *)
Definition no_wrap (sys : mempool_sys) (p : mempool_node) (align : Z) : Prop :=
  0 <= align /\
  offset p + alloc_align align - 1 < 2 ^ 64 /\
  0 <= alloc_size sys /\
  alloc_off p align + alloc_size sys < 2 ^ 64.

(** The descriptor of node [i]. *)
Definition pool_at (sys : mempool_sys) (i : nat) : option mempool_node :=
  match pools sys with
  | None => None
  | Some ps => ps !! i
  end.

(** The cursor of node [i]. *)
Definition cursor (sys : mempool_sys) (i : nat) : option Z :=
  match pools sys with
  | None => None
  | Some ps => offset <$> ps !! i
  end.

(** ** The calls of the affinity binder *)

(** The libnuma calls [ndp_bind_thread_to_node] makes, in order. *)
Inductive bind_call :=
| CallAllocateCpumask
| CallBitmaskClearall
| CallNodeToCpus
| CallSchedSetaffinity
| CallPerror
| CallFreeCpumask.

(** [ndp_bind_thread_to_node] again, with the calls it makes beside the
    value it returns. *)
Definition ndp_bind_thread_to_node_run (e : node_env) : Z * list bind_call :=
  if cpumask e =? NULL then (-1, [CallAllocateCpumask])
  else if negb (node_to_cpus e =? 0) then
    (-1, [CallAllocateCpumask; CallBitmaskClearall; CallNodeToCpus;
          CallFreeCpumask])
  else if sched_setaffinity e =? 0 then
    (* affinity_set *)
    (0, [CallAllocateCpumask; CallBitmaskClearall; CallNodeToCpus;
         CallSchedSetaffinity; CallFreeCpumask])
  else
    (* affinity_unset *)
    (-1, [CallAllocateCpumask; CallBitmaskClearall; CallNodeToCpus;
          CallSchedSetaffinity; CallPerror; CallFreeCpumask]).

(** Number of times the mask is given back. *)
Fixpoint mask_frees (l : list bind_call) : nat :=
  match l with
  | [] => 0
  | CallFreeCpumask :: l' => S (mask_frees l')
  | _ :: l' => mask_frees l'
  end.

(** ** Pre-faulting *)

(** Bytes of memory by address. *)
Definition memory := Z -> Z.

(** [p[off] = 0] and the like. *)
Definition store (m : memory) (a v : Z) : memory :=
  fun x => if x =? a then v else m x.

(** The loop of [warm_pages], [count] iterations from [off]. *)
Fixpoint warm_loop (p off : Z) (count : nat) (m : memory) : memory :=
  match count with
  | O => m
  | S c => warm_loop p (off + 1) c (store m (p + off) 0)
  end.

(** [warm_pages]; the local [page] is computed and never used. *)
Definition warm_pages (b sz : Z) (m : memory) : memory :=
  warm_loop b 0 (Z.to_nat sz) m.

(** ** The test program *)

(** The two lines [main] may print on [stderr]. *)
Inductive message := MsgInitFailed | MsgAllocFailed.

(** [main]: the exit code, the calls made and the lines printed.
    [worker] is what the platform answers to the binding of the main
    thread to node 0, and [sys0] the content of the local [sys] before it
    is initialised. *)
Definition main (pf : platform) (worker : node_env) (sys0 : mempool_sys)
  : option (Z * list event * list message) :=
  match ndp_mempool_init pf sys0 with
  | None => None
  | Some (rc, sys, tr) =>
      if negb (rc =? 0) then Some (1, tr, [MsgInitFailed])
      else
        let nd := 0 in
        let _ := ndp_bind_worker_node worker in
        match ndp_mempool_alloc_on_node sys nd 64 with
        | None => None
        | Some (buf, sys1) =>
            let out := if buf =? NULL then [MsgAllocFailed] else [] in
            match mempool_system_destroy sys1 with
            | None => None
            | Some (_, tr') => Some (0, tr ++ tr', out)
            end
        end
  end.

(** ** Sequences of allocations *)

(** Allocations on one node, one after the other, each on the registry
    the previous one left; the pointers returned, in order. *)
Fixpoint alloc_seq (sys : mempool_sys) (nd : Z) (aligns : list Z)
  : option (list Z * mempool_sys) :=
  match aligns with
  | [] => Some ([], sys)
  | align :: rest =>
      match ndp_mempool_alloc_on_node sys nd align with
      | None => None
      | Some (r, sys1) =>
          match alloc_seq sys1 nd rest with
          | None => None
          | Some (rs, sys2) => Some (r :: rs, sys2)
          end
      end
  end.

(** [sys'] is reached from [sys] by allocations, on any nodes and with
    any alignments. *)
Inductive alloc_steps : mempool_sys -> mempool_sys -> Prop :=
| alloc_steps_refl sys : alloc_steps sys sys
| alloc_steps_step sys nd align r sys1 sys2 :
    ndp_mempool_alloc_on_node sys nd align = Some (r, sys1) ->
    alloc_steps sys1 sys2 ->
    alloc_steps sys sys2.

(** ** Further predicates *)

(** The registry can be used: the array has [num_nodes] descriptors, or
    there is no array and no node. *)
Definition registry_ok (sys : mempool_sys) : Prop :=
  match pools sys with
  | Some ps => Z.of_nat (length ps) = num_nodes sys
  | None => num_nodes sys <= 0
  end.

(** The region of a pool lies in the address space, away from [NULL]. *)
Definition region_ok (p : mempool_node) : Prop :=
  0 < base p /\ base p + size p < 2 ^ 64.

(** An alignment that cannot make the arithmetic of an allocation on [p]
    wrap around, wherever the cursor of [p] is. *)
Definition safe_align (sys : mempool_sys) (p : mempool_node) (align : Z) : Prop :=
  is_size_t align /\ size p + alloc_align align + alloc_size sys <= 2 ^ 64.

(** The part of a descriptor an allocation never writes. *)
Definition fixed_part (p : mempool_node) : Z * Z * Z := (base p, size p, node p).

(** The fixed parts of all the descriptors of a registry. *)
Definition fixed_parts (sys : mempool_sys) : option (list (Z * Z * Z)) :=
  option_map (map fixed_part) (pools sys).

(** The calls of [mempool_system_destroy] for a descriptor, which depend
    on its fixed part only. *)
Definition release_of (f : Z * Z * Z) : list event :=
  if f.1.1 =? NULL then []
  else [EvMunlock f.1.1 f.1.2; EvNumaFree f.1.1 f.1.2].

(** The pointers of [rs] that are not [NULL] are blocks of [sz] bytes, one
    after the other without overlap, between [lo] and [hi]. *)
Fixpoint served_from (sz hi lo : Z) (rs : list Z) : Prop :=
  match rs with
  | [] => True
  | r :: rs' =>
      if r =? NULL then served_from sz hi lo rs'
      else lo <= r /\ r + sz <= hi /\ served_from sz hi (r + sz) rs'
  end.

(** A pool of 4096 bytes at address 4096, nothing in use. *)
Definition fresh_pool : mempool_node :=
  {| base := 4096; size := 4096; offset := 0; node := 0 |}.

(** A registry of that pool and a zeroed descriptor, served 1000 bytes at
    a time. *)
Definition fresh_sys : mempool_sys :=
  {| pools := Some [fresh_pool; zero_node]; num_nodes := 2; pool_size := 1000 |}.

(** A platform on which [calloc] of the descriptors fails. *)
Definition plat_nomem : platform :=
  {| numa_available := 0; numa_max_node := 2; numa_node_size := MiB;
     calloc_pools := false; calloc_scratch := true;
     pool_size_addr := 140737488351232;
     pthread_create := fun _ => 0;
     node_platform := fun i => healthy (Z.of_nat (S i) * 4096) |}.

(** A platform on which [numa_max_node()] returns 0. *)
Definition plat_single : platform :=
  {| numa_available := 0; numa_max_node := 0; numa_node_size := MiB;
     calloc_pools := true; calloc_scratch := false;
     pool_size_addr := 140737488351232;
     pthread_create := fun _ => 0;
     node_platform := fun i => healthy (Z.of_nat (S i) * 4096) |}.

(** A platform on which [calloc] of the scratch arrays fails. *)
Definition plat_noscratch : platform :=
  {| numa_available := 0; numa_max_node := 2; numa_node_size := MiB;
     calloc_pools := true; calloc_scratch := false;
     pool_size_addr := 140737488351232;
     pthread_create := fun _ => 0;
     node_platform := fun i => healthy (Z.of_nat (S i) * 4096) |}.

(** * Facts about the machine arithmetic *)

Section WordFacts.

Lemma wrap64_small z : is_size_t z -> wrap64 z = z.
Proof. unfold is_size_t, wrap64. intros H. apply Z.mod_small. lia. Qed.

Lemma wrap64_range z : is_size_t (wrap64 z).
Proof. unfold is_size_t, wrap64. apply Z.mod_pos_bound. lia. Qed.

Lemma to_int_range z : - 2 ^ 31 <= to_int z < 2 ^ 31.
Proof.
  unfold to_int.
  pose proof (Z.mod_pos_bound (z + 2 ^ 31) (2 ^ 32) ltac:(lia)). lia.
Qed.

Lemma to_int_small z : - 2 ^ 31 <= z < 2 ^ 31 -> to_int z = z.
Proof. unfold to_int. intros H. rewrite Z.mod_small; lia. Qed.

Lemma land_le_r y m : 0 <= m -> Z.land y m <= m.
Proof.
  intros Hm.
  assert (0 <= m - Z.land m y).
  { rewrite Z.sub_land_same_l. apply Z.land_nonneg. now left. }
  rewrite Z.land_comm. lia.
Qed.

(** Masking with [~m] clears the bits of [m]. *)
Lemma land_not64 y m :
  is_size_t y -> is_size_t m -> Z.land y (not64 m) = y - Z.land y m.
Proof.
  intros Hy Hm. unfold not64, wrap64.
  rewrite <- Z.land_ones by lia.
  rewrite (Z.land_comm (Z.lnot m)), Z.land_assoc.
  rewrite (Z.land_ones y) by lia.
  rewrite Z.mod_small by exact Hy.
  symmetry. apply Z.sub_land_same_l.
Qed.

Lemma align_up_unfold x a :
  1 <= a <= 2 ^ 64 -> 0 <= x -> x + a - 1 < 2 ^ 64 ->
  align_up x a = x + a - 1 - Z.land (x + a - 1) (a - 1).
Proof.
  intros Ha Hx Hlt. unfold align_up.
  rewrite (wrap64_small (x + a - 1)) by (unfold is_size_t; lia).
  rewrite (wrap64_small (a - 1)) by (unfold is_size_t; lia).
  apply land_not64; unfold is_size_t; lia.
Qed.

Lemma align_up_one x : is_size_t x -> align_up x 1 = x.
Proof.
  intros Hx. unfold is_size_t in Hx.
  rewrite align_up_unfold by lia.
  replace (1 - 1) with 0 by lia. rewrite Z.land_0_r. lia.
Qed.

(** Without wrap-around the rounded value is never below [x], whatever
    the alignment. *)
Lemma align_up_ge x a :
  1 <= a <= 2 ^ 64 -> 0 <= x -> x + a - 1 < 2 ^ 64 -> x <= align_up x a.
Proof.
  intros Ha Hx Hlt. rewrite align_up_unfold by assumption.
  pose proof (land_le_r (x + a - 1) (a - 1) ltac:(lia)). lia.
Qed.

Lemma align_up_pow2 x k :
  0 <= k < 64 -> 0 <= x -> x + 2 ^ k - 1 < 2 ^ 64 ->
  align_up x (2 ^ k) = 2 ^ k * ((x + 2 ^ k - 1) / 2 ^ k).
Proof.
  intros Hk Hx Hlt.
  assert (0 < 2 ^ k) by (apply Z.pow_pos_nonneg; lia).
  assert (2 ^ k <= 2 ^ 64) by (apply Z.pow_le_mono_r; lia).
  rewrite align_up_unfold by lia.
  replace (2 ^ k - 1) with (Z.ones k) by (rewrite Z.ones_equiv; lia).
  rewrite Z.land_ones by lia.
  pose proof (Z.div_mod (x + 2 ^ k - 1) (2 ^ k) ltac:(lia)). lia.
Qed.

Lemma align_up_first_aligned x a :
  is_pow2 a -> 0 <= x -> x + a - 1 < 2 ^ 64 ->
  first_aligned x a (align_up x a).
Proof.
  intros (k & Hk & ->) Hx Hlt.
  assert (Hpos : 0 < 2 ^ k) by (apply Z.pow_pos_nonneg; lia).
  rewrite align_up_pow2 by assumption.
  set (a := 2 ^ k) in *.
  pose proof (Z.div_mod (x + a - 1) a ltac:(lia)) as Hdm.
  pose proof (Z.mod_pos_bound (x + a - 1) a Hpos) as Hb.
  repeat split.
  - lia.
  - rewrite Z.mul_comm. apply Z.mod_mul. lia.
  - intros m Hm Hmod.
    apply Z.mod_divide in Hmod; [|lia]. destruct Hmod as [q ->].
    assert ((x + a - 1) / a <= q).
    { apply Z.lt_succ_r. apply Z.div_lt_upper_bound; [lia|]. nia. }
    nia.
Qed.

End WordFacts.

(** * The bump allocator *)

Section Alloc.

Lemma alloc_valid_node sys nd align ps p :
  0 <= nd < num_nodes sys ->
  pools sys = Some ps ->
  ps !! Z.to_nat nd = Some p ->
  ndp_mempool_alloc_on_node sys nd align =
    if alloc_end sys p align >? size p then Some (NULL, sys)
    else Some (wrap64 (base p + alloc_off p align),
               set_pools sys
                 (<[Z.to_nat nd := set_offset p (alloc_end sys p align)]> ps)).
Proof.
  intros Hnd Hps Hp. unfold ndp_mempool_alloc_on_node.
  destruct (Z.ltb_spec nd 0); [lia|].
  destruct (Z.geb_spec nd (num_nodes sys)); [lia|].
  cbn [orb]. now rewrite Hps, Hp.
Qed.

(** The first exit: the node id is not an index of the registry. *)
Lemma alloc_out_of_range sys nd align :
  nd < 0 \/ num_nodes sys <= nd ->
  ndp_mempool_alloc_on_node sys nd align = Some (NULL, sys).
Proof.
  intros H. unfold ndp_mempool_alloc_on_node.
  destruct (Z.ltb_spec nd 0); [reflexivity|].
  destruct (Z.geb_spec nd (num_nodes sys)); [reflexivity|lia].
Qed.

(** The three ways out of the function. *)
Lemma alloc_inv sys nd align r sys' :
  ndp_mempool_alloc_on_node sys nd align = Some (r, sys') ->
  (r = NULL /\ sys' = sys) \/
  exists ps p,
    0 <= nd < num_nodes sys /\
    pools sys = Some ps /\
    ps !! Z.to_nat nd = Some p /\
    alloc_end sys p align <= size p /\
    r = wrap64 (base p + alloc_off p align) /\
    sys' = set_pools sys
             (<[Z.to_nat nd := set_offset p (alloc_end sys p align)]> ps).
Proof.
  unfold ndp_mempool_alloc_on_node.
  destruct (Z.ltb_spec nd 0) as [|Hlo]; cbn [orb].
  { intros [= <- <-]. now left. }
  destruct (Z.geb_spec nd (num_nodes sys)) as [|Hhi].
  { intros [= <- <-]. now left. }
  destruct (pools sys) as [ps|] eqn:Hps; [|discriminate].
  destruct (ps !! Z.to_nat nd) as [p|] eqn:Hp; [|discriminate].
  destruct (Z.gtb_spec (alloc_end sys p align) (size p)) as [|Hle].
  { intros [= <- <-]. now left. }
  intros [= <- <-]. right. exists ps, p. repeat split; try lia; auto.
Qed.

Lemma cursor_set_pools sys ps i p o :
  ps !! i = Some p ->
  cursor (set_pools sys (<[i := set_offset p o]> ps)) i = Some o.
Proof.
  intros Hp. unfold cursor, set_pools; cbn.
  rewrite list_lookup_insert_eq; [reflexivity|].
  eapply lookup_lt_Some; eauto.
Qed.

(** On the success path the cursor becomes [off + size], where [size] is
    read from [sys->pool_size]. *)
Lemma alloc_success_cursor sys nd align ps p :
  0 <= nd < num_nodes sys ->
  pools sys = Some ps ->
  ps !! Z.to_nat nd = Some p ->
  alloc_end sys p align <= size p ->
  exists sys',
    ndp_mempool_alloc_on_node sys nd align =
      Some (wrap64 (base p + alloc_off p align), sys') /\
    cursor sys' (Z.to_nat nd) =
      Some (wrap64 (alloc_off p align + to_int (pool_size sys))).
Proof.
  intros Hnd Hps Hp Hle.
  rewrite (alloc_valid_node _ _ _ _ _ Hnd Hps Hp).
  destruct (Z.gtb_spec (alloc_end sys p align) (size p)); [lia|].
  eexists; split; [reflexivity|]. now apply cursor_set_pools.
Qed.

(** C1.  The allocation takes no size from its caller: the cursor advances
    by [sys->pool_size].  On the registry of the concrete scenario (two
    nodes of 1,048,576 bytes) the first allocation with alignment 64 is
    served at offset 0 and leaves the cursor at 1,048,576 instead of 64,
    and the next allocation with alignment 64 returns [NULL] instead of
    offset 64. *)
Theorem alloc_advances_by_pool_size :
  exists s1,
    ndp_mempool_alloc_on_node scenario_sys 0 64 = Some (4096 + 0, s1) /\
    cursor scenario_sys 0 = Some 0 /\
    cursor s1 0 = Some MiB /\
    ndp_mempool_alloc_on_node s1 0 64 = Some (NULL, s1).
Proof. eexists. repeat split; vm_compute; reflexivity. Qed.

(** C7.  A node id that is negative or not below [num_nodes] makes the
    allocation return [NULL], the only error value of the function, with
    the registry and all its pools unchanged. *)
Theorem alloc_invalid_node sys nd align :
  nd < 0 \/ num_nodes sys <= nd ->
  ndp_mempool_alloc_on_node sys nd align = Some (NULL, sys).
Proof. apply alloc_out_of_range. Qed.

(** Node 5 against the two-node registry. *)
Lemma alloc_invalid_node_witness :
  (5 < 0 \/ num_nodes scenario_sys <= 5) /\
  ndp_mempool_alloc_on_node scenario_sys 5 64 = Some (NULL, scenario_sys).
Proof.
  split; [right; simpl; lia|].
  apply (alloc_invalid_node scenario_sys 5 64). right; simpl; lia.
Defined.

(** C10.  On a valid node an alignment of 0 is accepted and gives exactly
    the result of an alignment of 1: the offset is the cursor itself, and
    the allocation is served whenever cursor + size fits the pool. *)
Theorem alloc_align_zero sys nd ps p :
  0 <= nd < num_nodes sys ->
  pools sys = Some ps ->
  ps !! Z.to_nat nd = Some p ->
  is_size_t (offset p) ->
  ndp_mempool_alloc_on_node sys nd 0 = ndp_mempool_alloc_on_node sys nd 1 /\
  alloc_off p 0 = offset p /\
  (wrap64 (offset p + alloc_size sys) <= size p ->
   exists sys',
     ndp_mempool_alloc_on_node sys nd 0 =
       Some (wrap64 (base p + offset p), sys') /\
     cursor sys' (Z.to_nat nd) = Some (wrap64 (offset p + alloc_size sys))).
Proof.
  intros Hnd Hps Hp Hoff.
  assert (Hoff0 : alloc_off p 0 = offset p).
  { unfold alloc_off, alloc_align; cbn. now apply align_up_one. }
  split; [reflexivity|]. split; [exact Hoff0|].
  intros Hfit.
  destruct (alloc_success_cursor sys nd 0 ps p Hnd Hps Hp) as (sys' & Ha & Hc).
  { unfold alloc_end. now rewrite Hoff0. }
  exists sys'. rewrite Hoff0 in Ha, Hc. auto.
Qed.

Lemma alloc_align_zero_witness :
  ndp_mempool_alloc_on_node tight_sys 0 0 =
    ndp_mempool_alloc_on_node tight_sys 0 1 /\
  alloc_off tight_pool 0 = 64 /\
  exists sys',
    ndp_mempool_alloc_on_node tight_sys 0 0 = Some (4096 + 64, sys') /\
    cursor sys' 0 = Some 192.
Proof.
  destruct (alloc_align_zero tight_sys 0 [tight_pool] tight_pool)
    as (H1 & H2 & H3).
  - simpl; lia.
  - reflexivity.
  - reflexivity.
  - unfold is_size_t; simpl; lia.
  - split; [exact H1|]. split; [exact H2|].
    apply H3. vm_compute. discriminate.
Defined.

(** C5, as stated, fails where [off + size] leaves the [size_t] range: on
    a full pool of capacity 2^64 - 64 an allocation of 64 bytes with
    alignment 1 has aligned offset + size = 2^64, beyond the capacity,
    yet the sum wraps to 0, the allocation is served and the cursor is
    set to 0. *)
Lemma alloc_past_capacity_served :
  exists r sys',
    ndp_mempool_alloc_on_node brim_sys 0 1 = Some (r, sys') /\
    first_aligned (offset brim_pool) 1 (offset brim_pool) /\
    offset brim_pool + alloc_size brim_sys > size brim_pool /\
    r = base brim_pool + offset brim_pool /\
    r <> NULL /\
    cursor brim_sys 0 = Some (2 ^ 64 - 64) /\
    cursor sys' 0 = Some 0.
Proof.
  do 2 eexists. split; [vm_compute; reflexivity|]. split.
  { unfold first_aligned. split; [lia|]. split; [apply Z.mod_1_r|].
    intros m Hm _. exact Hm. }
  repeat split; vm_compute; congruence.
Qed.

Lemma first_aligned_unique c a o1 o2 :
  first_aligned c a o1 -> first_aligned c a o2 -> o1 = o2.
Proof.
  intros (H1 & H2 & H3) (K1 & K2 & K3).
  pose proof (H3 o2 K1 K2). pose proof (K3 o1 H1 H2). lia.
Qed.

(** C5, amended.  For an alignment that is a power of two (0 standing for
    1) and a cursor with [cursor + alignment - 1] below 2^64: when the
    aligned offset plus the size exceeds the capacity of the pool and
    stays below 2^64, the allocation returns [NULL] and the registry,
    hence the cursor, is exactly as before; so an allocation that asks
    for what is left (alignment 1, the size served being the remaining
    capacity) is then served, at the old cursor. *)
Theorem alloc_exhausted sys nd align ps p off :
  0 <= nd < num_nodes sys ->
  pools sys = Some ps ->
  ps !! Z.to_nat nd = Some p ->
  is_size_t (offset p) ->
  is_size_t (size p) ->
  is_pow2 (alloc_align align) ->
  offset p + alloc_align align - 1 < 2 ^ 64 ->
  first_aligned (offset p) (alloc_align align) off ->
  size p < off + alloc_size sys < 2 ^ 64 ->
  exists sys1,
    ndp_mempool_alloc_on_node sys nd align = Some (NULL, sys1) /\
    sys1 = sys /\
    cursor sys1 (Z.to_nat nd) = Some (offset p) /\
    (alloc_size sys1 = size p - offset p ->
     exists sys2,
       ndp_mempool_alloc_on_node sys1 nd 1 =
         Some (wrap64 (base p + offset p), sys2) /\
       cursor sys2 (Z.to_nat nd) = Some (size p)).
Proof.
  intros Hnd Hps Hp Hoff Hsz Hpow Hlt Hfirst Hover.
  assert (Hoffeq : alloc_off p align = off).
  { apply (first_aligned_unique (offset p) (alloc_align align));
      [|exact Hfirst].
    unfold alloc_off. apply align_up_first_aligned; auto.
    unfold is_size_t in Hoff. lia. }
  assert (Hgt : alloc_end sys p align > size p).
  { unfold alloc_end. rewrite Hoffeq, wrap64_small; [lia|].
    unfold is_size_t in *. lia. }
  exists sys.
  rewrite (alloc_valid_node _ _ _ _ _ Hnd Hps Hp).
  destruct (Z.gtb_spec (alloc_end sys p align) (size p)); [|lia].
  split; [reflexivity|]. split; [reflexivity|]. split.
  { unfold cursor. now rewrite Hps, Hp. }
  intros Hrem.
  assert (Hoff1 : alloc_off p 1 = offset p).
  { unfold alloc_off, alloc_align; cbn. now apply align_up_one. }
  assert (Hend : alloc_end sys p 1 = size p).
  { unfold alloc_end. rewrite Hoff1, Hrem.
    replace (offset p + (size p - offset p)) with (size p) by lia.
    now apply wrap64_small. }
  destruct (alloc_success_cursor sys nd 1 ps p Hnd Hps Hp) as (sys2 & Ha & Hc).
  { lia. }
  exists sys2. rewrite Hoff1 in Ha. split; [exact Ha|].
  rewrite Hc. f_equal. exact Hend.
Qed.

Lemma alloc_exhausted_witness :
  exists sys1,
    ndp_mempool_alloc_on_node tight_sys 0 128 = Some (NULL, sys1) /\
    sys1 = tight_sys /\
    cursor sys1 0 = Some 64 /\
    exists sys2,
      ndp_mempool_alloc_on_node sys1 0 1 = Some (4096 + 64, sys2) /\
      cursor sys2 0 = Some 192.
Proof.
  destruct (alloc_exhausted tight_sys 0 128 [tight_pool] tight_pool 128)
    as (sys1 & H1 & H2 & H3 & H4).
  - simpl; lia.
  - reflexivity.
  - reflexivity.
  - unfold is_size_t; simpl; lia.
  - unfold is_size_t; simpl; lia.
  - exists 7. split; [lia|reflexivity].
  - vm_compute. reflexivity.
  - change (alloc_align 128) with 128. unfold first_aligned; simpl.
    split; [lia|]. split; [reflexivity|].
    intros m Hm Hmod. apply Z.mod_divide in Hmod; [|lia].
    destruct Hmod as [q ->]. lia.
  - vm_compute. split; reflexivity.
  - exists sys1. split; [exact H1|]. split; [exact H2|]. split; [exact H3|].
    subst sys1. apply H4. vm_compute. reflexivity.
Defined.

(** C6, as stated, fails where [cursor + alignment - 1] leaves the
    [size_t] range: on a full pool ending 8192 bytes below 2^64 an
    allocation aligned to 16384 = 2^14 is served at offset 0, far below
    the cursor. *)
Lemma alloc_offset_wraps :
  exists sys',
    ndp_mempool_alloc_on_node huge_sys 0 16384 =
      Some (wrap64 (base huge_pool + 0), sys') /\
    is_pow2 16384 /\
    offset huge_pool = 2 ^ 64 - 8192 /\
    ~ first_aligned (offset huge_pool) 16384 0.
Proof.
  eexists. split; [vm_compute; reflexivity|].
  split; [exists 14; split; [lia|reflexivity]|].
  split; [reflexivity|].
  intros (Hle & _). vm_compute in Hle. now apply Hle.
Qed.

(** C6, amended.  For an alignment that is a power of two and a cursor
    with [cursor + alignment - 1] below 2^64, a served allocation lies at
    the first multiple of the alignment at or after the cursor; in
    particular its offset is 0 modulo the alignment. *)
Theorem alloc_offset_first_aligned sys nd align ps p :
  0 <= nd < num_nodes sys ->
  pools sys = Some ps ->
  ps !! Z.to_nat nd = Some p ->
  is_pow2 align ->
  0 <= offset p ->
  offset p + align - 1 < 2 ^ 64 ->
  alloc_end sys p align <= size p ->
  exists off sys',
    ndp_mempool_alloc_on_node sys nd align =
      Some (wrap64 (base p + off), sys') /\
    first_aligned (offset p) align off /\
    off mod align = 0.
Proof.
  intros Hnd Hps Hp Hpow Hoff Hlt Hfit.
  destruct (alloc_success_cursor sys nd align ps p Hnd Hps Hp Hfit)
    as (sys' & Ha & _).
  exists (alloc_off p align), sys'. split; [exact Ha|].
  assert (Hal : alloc_align align = align).
  { unfold alloc_align. destruct Hpow as (k & Hk & ->).
    assert (0 < 2 ^ k) by (apply Z.pow_pos_nonneg; lia).
    destruct (Z.eqb_spec (2 ^ k) 0); [lia|reflexivity]. }
  assert (Hfa : first_aligned (offset p) align (alloc_off p align)).
  { unfold alloc_off. rewrite Hal. now apply align_up_first_aligned. }
  split; [exact Hfa|]. apply Hfa.
Qed.

Lemma alloc_offset_first_aligned_witness :
  exists off sys',
    ndp_mempool_alloc_on_node roomy_sys 0 128 =
      Some (wrap64 (base tight_pool + off), sys') /\
    first_aligned (offset tight_pool) 128 off /\
    off mod 128 = 0.
Proof.
  apply (alloc_offset_first_aligned roomy_sys 0 128 [tight_pool] tight_pool).
  - simpl; lia.
  - reflexivity.
  - reflexivity.
  - exists 7. split; [lia|reflexivity].
  - simpl; lia.
  - simpl; lia.
  - vm_compute. discriminate.
Defined.

End Alloc.

(** * Bootstrap and teardown *)

Section Boot.

(** ** One thread *)

Lemma thread_run e a ps :
  ndp_node_init_thread e a ps =
    let r := ndp_node_init_thread e a [] in
    (r.1.1,
     if r.1.1 =? 0
     then <[pool a := {| base := alloc_onnode e; size := ta_size a;
                         offset := 0; node := ta_node a |}]> ps
     else ps,
     r.2).
Proof.
  unfold ndp_node_init_thread.
  destruct (ndp_bind_thread_to_node e <? 0); [reflexivity|].
  destruct (alloc_onnode e =? NULL); [reflexivity|].
  destruct (negb (mlock e =? 0)); reflexivity.
Qed.

Lemma thread_exit_values e a ps :
  (ndp_node_init_thread e a ps).1.1 = 0 \/
  (ndp_node_init_thread e a ps).1.1 = -1.
Proof.
  unfold ndp_node_init_thread.
  destruct (ndp_bind_thread_to_node e <? 0); [now right|].
  destruct (alloc_onnode e =? NULL); [now right|].
  destruct (negb (mlock e =? 0)); [now right|now left].
Qed.

(** A thread that exits with 0 got its region and pinned it. *)
Lemma thread_success e a :
  (ndp_node_init_thread e a []).1.1 = 0 ->
  alloc_onnode e <> NULL /\
  (ndp_node_init_thread e a []).2 =
    [EvNumaAlloc (alloc_onnode e) (ta_size a) (ta_node a);
     EvMlock (alloc_onnode e) (ta_size a)].
Proof.
  unfold ndp_node_init_thread.
  destruct (ndp_bind_thread_to_node e <? 0); [discriminate|].
  destruct (Z.eqb_spec (alloc_onnode e) NULL); [discriminate|].
  destruct (negb (mlock e =? 0)); [discriminate|]. auto.
Qed.

(** A thread that fails leaves no region behind. *)
Lemma thread_failure_balanced e a w :
  (ndp_node_init_thread e a []).1.1 <> 0 ->
  (w = region_weight \/ w = pin_weight) ->
  forall x, net (w x) (ndp_node_init_thread e a []).2 = 0.
Proof.
  unfold ndp_node_init_thread.
  destruct (ndp_bind_thread_to_node e <? 0); [reflexivity|].
  destruct (alloc_onnode e =? NULL); [reflexivity|].
  destruct (negb (mlock e =? 0)); [|intros H; now destruct H].
  intros _ [-> | ->] x; cbn; [|reflexivity].
  destruct (alloc_onnode e =? x); reflexivity.
Qed.


(** A thread that fails gives back what it obtained, with its length. *)
Lemma thread_failure_settled e a :
  (ndp_node_init_thread e a []).1.1 <> 0 ->
  settled (ndp_node_init_thread e a []).2.
Proof.
  unfold ndp_node_init_thread.
  destruct (ndp_bind_thread_to_node e <? 0); [intros _ x len; now split|].
  destruct (alloc_onnode e =? NULL); [intros _ x len; now split|].
  destruct (negb (mlock e =? 0)); [|intros H; now destruct H].
  intros _ x len. split; cbn; [|reflexivity].
  destruct ((alloc_onnode e =? x) && (ta_size a =? len)); reflexivity.
Qed.

(** ** The block behind [sys->pools] *)

(** The descriptor of the last node never fits the block. *)
Lemma last_node_outside n :
  (1 <= n)%nat -> in_block n (n - 1) NODE_END = false.
Proof.
  intros Hn. unfold in_block, NODE_BYTES, NODE_END, POOLS_ELEM_BYTES.
  apply Z.leb_gt. lia.
Qed.

(** With two nodes or more, the base of the last node lies beyond the
    block. *)
Lemma last_base_outside n :
  (2 <= n)%nat -> in_block n (n - 1) BASE_END = false.
Proof.
  intros Hn. unfold in_block, NODE_BYTES, BASE_END, POOLS_ELEM_BYTES.
  apply Z.leb_gt. lia.
Qed.

(** ** The spawn loop *)

Lemma lookup_map_seq {A} (f : nat -> A) n s i :
  (i < n)%nat -> map f (seq s n) !! i = Some (f (s + i)%nat).
Proof.
  revert s i. induction n as [|n IH]; intros s i Hi; [lia|].
  destruct i as [|i]; cbn.
  - now rewrite Nat.add_0_r.
  - rewrite IH by lia. f_equal. f_equal. lia.
Qed.

Lemma forallb_eq_in {A} (f g : A -> bool) l :
  (forall x, In x l -> f x = g x) -> forallb f l = forallb g l.
Proof.
  induction l as [|x l IH]; intros H; [reflexivity|]. cbn.
  rewrite (H x) by now left. rewrite IH; [reflexivity|].
  intros y Hy. apply H. now right.
Qed.


Lemma spawn_loop_app pf n l1 l2 st :
  spawn_loop pf n (l1 ++ l2) st =
    match spawn_loop pf n l1 st with
    | None => None
    | Some st' => spawn_loop pf n l2 st'
    end.
Proof.
  revert st. induction l1 as [|i l1 IH]; intros st; [reflexivity|].
  cbn [spawn_loop app]. destruct (spawn_node pf n st i); [apply IH|reflexivity].
Qed.

Lemma boot_after_S pf n m :
  (m < n)%nat ->
  boot_after pf n (S m) =
    {| b_pools := <[m := boot_pool pf m]> (b_pools (boot_after pf n m));
       b_threads := <[m := boot_thread pf m]> (b_threads (boot_after pf n m));
       b_trace := b_trace (boot_after pf n m) ++ boot_events pf m |}.
Proof.
  intros Hm. unfold boot_after; cbn [b_pools b_threads b_trace].
  replace (n - m)%nat with (S (n - S m)) by lia.
  rewrite seq_S, !map_app, concat_app; cbn [map concat replicate Nat.add].
  rewrite <- !app_assoc, app_nil_r; cbn [app].
  assert (Hlen : forall A (f : nat -> A), length (map f (seq 0 m)) = m).
  { intros. now rewrite length_map, length_seq. }
  f_equal.
  - rewrite insert_app_r_alt by (rewrite Hlen; lia).
    now rewrite Hlen, Nat.sub_diag.
  - rewrite insert_app_r_alt by (rewrite Hlen; lia).
    now rewrite Hlen, Nat.sub_diag.
Qed.

Lemma boot_after_lookup pf n m :
  (m < n)%nat ->
  b_pools (boot_after pf n m) !! m = Some zero_node /\
  b_threads (boot_after pf n m) !! m = Some None.
Proof.
  intros Hm. unfold boot_after; cbn [b_pools b_threads].
  assert (Hlen : forall A (f : nat -> A), length (map f (seq 0 m)) = m).
  { intros. now rewrite length_map, length_seq. }
  split.
  - rewrite lookup_app_r by (rewrite Hlen; lia).
    rewrite Hlen, Nat.sub_diag. apply lookup_replicate_2. lia.
  - rewrite lookup_app_r by (rewrite Hlen; lia).
    rewrite Hlen, Nat.sub_diag. apply lookup_replicate_2. lia.
Qed.

(** One turn of the first loop. *)
Lemma spawn_node_step pf n m :
  (m < n)%nat ->
  spawn_node pf n (boot_after pf n m) m =
    if negb (booted pf m) || in_block n m NODE_END
    then Some (boot_after pf n (S m))
    else None.
Proof.
  intros Hm. rewrite (boot_after_S _ _ _ Hm).
  destruct (boot_after_lookup pf n m Hm) as [Hp Ht].
  unfold spawn_node, booted, boot_pool, boot_thread, boot_events, booted,
    started.
  destruct (pthread_create pf m =? 0); cbn [negb andb orb].
  2:{ rewrite !list_insert_id by assumption. rewrite app_nil_r.
      now destruct (boot_after pf n m). }
  rewrite thread_run; cbn beta iota zeta.
  fold (exit_of pf m). fold (thread_events pf m).
  destruct (exit_of pf m =? 0); cbn [negb andb orb].
  - destruct (in_block n m NODE_END); reflexivity.
  - now rewrite (list_insert_id _ _ _ Hp).
Qed.

Lemma spawn_prefix pf n m :
  (m <= n)%nat ->
  spawn_loop pf n (seq 0 m) (boot0 n) =
    if spawn_fits pf n (seq 0 m) then Some (boot_after pf n m) else None.
Proof.
  induction m as [|m IH]; intros Hm.
  - cbn. unfold boot_after, boot0. cbn. now rewrite Nat.sub_0_r.
  - assert (Hseq : seq 0 (S m) = seq 0 m ++ [m]) by apply seq_S.
    rewrite Hseq, spawn_loop_app, IH by lia.
    unfold spawn_fits. rewrite forallb_app. cbn [forallb].
    fold (spawn_fits pf n (seq 0 m)).
    destruct (spawn_fits pf n (seq 0 m)); [|reflexivity].
    cbn [spawn_loop andb]. rewrite spawn_node_step by lia.
    rewrite andb_true_r.
    now destruct (negb (booted pf m) || in_block n m NODE_END).
Qed.

Lemma boot_after_all pf n :
  boot_after pf n n =
    {| b_pools := map (boot_pool pf) (seq 0 n);
       b_threads := map (boot_thread pf) (seq 0 n);
       b_trace := concat (map (boot_events pf) (seq 0 n)) |}.
Proof.
  unfold boot_after. rewrite Nat.sub_diag; cbn [replicate].
  now rewrite !app_nil_r.
Qed.

Lemma spawn_all_spec pf n :
  spawn_all pf n =
    if spawn_fits pf n (seq 0 n) then Some (boot_after pf n n) else None.
Proof. unfold spawn_all. now apply spawn_prefix. Qed.

(** ** The join loop *)

Lemma join_loop_boot pf n l :
  (forall i, In i l -> (i < n)%nat) ->
  forall ok,
    join_loop (map (boot_thread pf) (seq 0 n)) l ok =
      if all_started pf l
      then Some (if all_exit_zero pf l then ok else -1)
      else None.
Proof.
  induction l as [|i l IH]; intros Hl ok; [reflexivity|].
  cbn [join_loop all_started all_exit_zero forallb]. unfold join_node.
  rewrite lookup_map_seq by (apply Hl; now left). cbn [Nat.add].
  unfold boot_thread. destruct (started pf i); cbn [andb]; [|reflexivity].
  rewrite IH by (intros j Hj; apply Hl; now right).
  fold (all_started pf l). fold (all_exit_zero pf l).
  destruct (all_started pf l); [|reflexivity].
  destruct (exit_of pf i =? 0); cbn [negb andb]; [reflexivity|].
  now destruct (all_exit_zero pf l).
Qed.

Lemma join_all_boot pf n :
  join_all (map (boot_thread pf) (seq 0 n)) n =
    if all_started pf (seq 0 n)
    then Some (if all_exit_zero pf (seq 0 n) then 0 else -1)
    else None.
Proof.
  unfold join_all. apply join_loop_boot. intros i Hi. apply in_seq in Hi. lia.
Qed.

(** ** Loops over the descriptors *)

Lemma for_nodes_app f l1 l2 :
  for_nodes f (l1 ++ l2) (length l1) (length l2) = Some (concat (map f l2)).
Proof.
  revert l1. induction l2 as [|x l2 IH]; intros l1; [reflexivity|].
  cbn [for_nodes length map concat].
  rewrite list_lookup_middle by reflexivity.
  specialize (IH (l1 ++ [x])).
  rewrite <- app_assoc, length_app in IH; cbn [app length] in IH.
  rewrite Nat.add_1_r in IH. now rewrite IH.
Qed.

Lemma for_nodes_all f ps :
  for_nodes f ps 0 (length ps) = Some (concat (map f ps)).
Proof. apply (for_nodes_app f [] ps). Qed.

(** ** Accounting *)

Lemma net_app w t1 t2 : net w (t1 ++ t2) = net w t1 + net w t2.
Proof. induction t1 as [|e t1 IH]; cbn; [reflexivity|]. rewrite IH. lia. Qed.


(** ** The rollback loop *)

Lemma rollback_loop_outside n psz ps j count :
  forall nd,
    (nd <= j < nd + count)%nat ->
    in_block n j BASE_END = false ->
    rollback_loop n psz ps nd count = None.
Proof.
  induction count as [|c IH]; intros nd Hj Hout; [lia|].
  cbn [rollback_loop].
  destruct (Nat.eq_dec j nd) as [->|Hne].
  { now rewrite Hout. }
  rewrite (IH (S nd)) by (auto; lia).
  destruct (negb (in_block n nd BASE_END)); [reflexivity|].
  destruct (ps !! nd); [|reflexivity].
  now destruct (negb (base m =? NULL) && negb (in_block n nd SIZE_END)).
Qed.

(** ** [ndp_mempool_init] past its early exits *)

Lemma init_reach pf sys :
  reaches_boot pf ->
  0 <= numa_max_node pf ->
  ndp_mempool_init pf sys =
    if negb (calloc_scratch pf) && negb (boot_n pf =? 0)%nat then None
    else if spawn_fits pf (boot_n pf) (seq 0 (boot_n pf)) then
      if all_started pf (seq 0 (boot_n pf)) then
        if all_exit_zero pf (seq 0 (boot_n pf)) then
          Some (0,
                {| pools := Some (map (boot_pool pf) (seq 0 (boot_n pf)));
                   num_nodes := numa_max_node pf;
                   pool_size := boot_psz pf |},
                concat (map (boot_events pf) (seq 0 (boot_n pf))))
        else
          match rollback_loop (boot_n pf) (boot_psz pf)
                  (map (boot_pool pf) (seq 0 (boot_n pf))) 0 (boot_n pf) with
          | None => None
          | Some tr =>
              Some (-1,
                    {| pools := None; num_nodes := 0;
                       pool_size := boot_psz pf |},
                    concat (map (boot_events pf) (seq 0 (boot_n pf))) ++
                    tr ++ [EvFreePools])
          end
      else None
    else None.
Proof.
  intros (Hav & Hsz & Hcal) Hn.
  unfold ndp_mempool_init, boot_n, boot_psz.
  destruct (Z.ltb_spec (numa_available pf) 0); [lia|].
  destruct (Z.eqb_spec (to_int (numa_node_size pf)) (-1)); [contradiction|].
  unfold calloc_ok. rewrite Hcal.
  destruct (Z.leb_spec 0 (numa_max_node pf)); [|lia]. cbn [andb negb].
  destruct (negb (calloc_scratch pf)
            && negb (Z.to_nat (numa_max_node pf) =? 0)%nat); [reflexivity|].
  rewrite spawn_all_spec.
  destruct (spawn_fits pf _ _); [|reflexivity].
  rewrite boot_after_all; cbn [b_pools b_threads b_trace].
  rewrite join_all_boot.
  destruct (all_started pf _); [|reflexivity].
  destruct (all_exit_zero pf _); reflexivity.
Qed.

(** No node: the loops do not run. *)
Lemma init_zero_nodes pf sys :
  reaches_boot pf ->
  numa_max_node pf = 0 ->
  ndp_mempool_init pf sys =
    Some (0, {| pools := Some []; num_nodes := 0; pool_size := boot_psz pf |},
          []).
Proof.
  intros Hr Hn. rewrite (init_reach _ _ Hr) by lia.
  unfold boot_n. rewrite Hn. cbn. now rewrite andb_false_r.
Qed.

(** One node: the call is defined only when the thread of node 0 is
    created and fails. *)
Lemma init_one_node pf sys :
  reaches_boot pf ->
  numa_max_node pf = 1 ->
  ndp_mempool_init pf sys =
    if calloc_scratch pf && started pf 0 && negb (exit_of pf 0 =? 0) then
      Some (-1, {| pools := None; num_nodes := 0; pool_size := boot_psz pf |},
            thread_events pf 0 ++ [EvFreePools])
    else None.
Proof.
  intros Hr Hn. rewrite (init_reach _ _ Hr) by lia.
  unfold boot_n. rewrite Hn.
  change (Z.to_nat 1) with 1%nat. cbn [Nat.eqb negb seq].
  rewrite andb_true_r.
  destruct (calloc_scratch pf); cbn [negb andb]; [|reflexivity].
  unfold spawn_fits, all_started, all_exit_zero; cbn [forallb map concat].
  change (in_block 1 0 NODE_END) with false.
  rewrite !andb_true_r, orb_false_r.
  unfold booted, boot_events, boot_pool, booted.
  destruct (started pf 0); cbn [negb andb]; [|reflexivity].
  destruct (exit_of pf 0 =? 0); cbn [negb andb]; [reflexivity|].
  cbn. now rewrite app_nil_r.
Qed.

(** Two nodes or more: the call always goes outside an array. *)
Lemma init_many_nodes pf sys :
  reaches_boot pf ->
  2 <= numa_max_node pf ->
  ndp_mempool_init pf sys = None.
Proof.
  intros Hr Hn. rewrite (init_reach _ _ Hr) by lia.
  assert (Hn2 : (2 <= boot_n pf)%nat) by (unfold boot_n; lia).
  assert (Hin : In (boot_n pf - 1)%nat (seq 0 (boot_n pf))).
  { apply in_seq. lia. }
  destruct (negb (calloc_scratch pf) && negb (boot_n pf =? 0)%nat);
    [reflexivity|].
  destruct (spawn_fits pf _ _) eqn:Hfit; [|reflexivity].
  destruct (all_started pf _) eqn:Hst; [|reflexivity].
  destruct (all_exit_zero pf _) eqn:Hex.
  - exfalso.
    unfold spawn_fits, all_started, all_exit_zero in *.
    rewrite forallb_forall in Hfit, Hst, Hex.
    specialize (Hfit _ Hin). specialize (Hst _ Hin). specialize (Hex _ Hin).
    unfold booted in Hfit. rewrite Hst, Hex in Hfit.
    rewrite last_node_outside in Hfit by lia. discriminate.
  - rewrite (rollback_loop_outside _ _ _ (boot_n pf - 1)); [reflexivity|lia|].
    apply last_base_outside. lia.
Qed.

(** The ways through [ndp_mempool_init]. *)
Lemma init_cases pf sys :
  ((numa_available pf < 0 \/ to_int (numa_node_size pf) = -1) /\
   ndp_mempool_init pf sys = Some (-1, sys, [])) \/
  (0 <= numa_available pf /\ to_int (numa_node_size pf) <> -1 /\
   calloc_ok pf (numa_max_node pf) = false /\
   ndp_mempool_init pf sys =
     Some (-1, {| pools := None; num_nodes := numa_max_node pf;
                  pool_size := boot_psz pf |}, [])) \/
  (reaches_boot pf /\ 0 <= numa_max_node pf).
Proof.
  unfold ndp_mempool_init, reaches_boot, boot_psz.
  destruct (Z.ltb_spec (numa_available pf) 0); [left; auto|].
  destruct (Z.eqb_spec (to_int (numa_node_size pf)) (-1)); [left; auto|].
  destruct (calloc_ok pf (numa_max_node pf)) eqn:Hc; cbn [negb];
    [|right; left; auto].
  unfold calloc_ok in Hc. apply andb_true_iff in Hc as [Hc1 Hc2].
  apply Z.leb_le in Hc2. right; right. auto.
Qed.

(** A return code of 0 comes from a platform without node. *)
Lemma init_success_inv pf sys sys' tr :
  ndp_mempool_init pf sys = Some (0, sys', tr) ->
  reaches_boot pf /\
  numa_max_node pf = 0 /\
  sys' = {| pools := Some []; num_nodes := 0; pool_size := boot_psz pf |} /\
  tr = [].
Proof.
  intros H.
  destruct (init_cases pf sys) as [(_ & He) | [(_ & _ & _ & He) | (Hr & Hn)]];
    try congruence.
  destruct (Z.eq_dec (numa_max_node pf) 0) as [H0|H0].
  { rewrite (init_zero_nodes _ _ Hr H0) in H. injection H as <- <-. auto. }
  destruct (Z.eq_dec (numa_max_node pf) 1) as [H1|H1].
  { rewrite (init_one_node _ _ Hr H1) in H.
    destruct (calloc_scratch pf && started pf 0 && negb (exit_of pf 0 =? 0));
      discriminate. }
  rewrite init_many_nodes in H by (auto; lia). discriminate.
Qed.

(** C2.  The rollback is there, but the block behind [sys->pools] has 8
    bytes per node where a descriptor takes 32.  With [numa_max_node()]
    2, where node 0 is bootstrapped and node 1 cannot pin its region,
    the thread of node 0 writes its descriptor beyond the 16 bytes of the
    block and the rollback reads [pools[1].base] beyond them: the call
    has no defined result, where the claim has it return an error with
    the pool of node 0 unpinned and released.  The rollback of the descriptor
    node 0 publishes would, besides, lift the pin with [sys->pool_size]
    as length, not the length the region was pinned with. *)
Theorem init_rollback_outside_block :
  exit_of plat_pin1 0 = 0 /\
  exit_of plat_pin1 1 = -1 /\
  in_block 2 0 NODE_END = false /\
  in_block 2 1 BASE_END = false /\
  spawn_all plat_pin1 2 = None /\
  ndp_mempool_init plat_pin1 empty_sys = None /\
  thread_events plat_pin1 0 =
    [EvNumaAlloc 4096 140737488351232 0; EvMlock 4096 140737488351232] /\
  rollback_node (boot_psz plat_pin1) (live_pool plat_pin1 0) =
    [EvMunlock 4096 1048576; EvNumaFree 4096 140737488351232].
Proof. repeat split; vm_compute; reflexivity. Qed.




(** C4.  [ndp_mempool_init] stores the value of [numa_max_node()], the
    highest node number, as the number of nodes: on a platform with one
    node (node 0, whose size the call itself queries) it returns 0 with
    [num_nodes] 0 and no pool, where the claim has [num_nodes] equal to
    the number of nodes, 1. *)
Theorem init_node_count_off_by_one :
  exists sys,
    ndp_mempool_init plat_single empty_sys = Some (0, sys, []) /\
    num_nodes sys = 0 /\
    pools sys = Some [] /\
    node_count plat_single = 1.
Proof. eexists. repeat split; vm_compute; reflexivity. Qed.

End Boot.
(** * The cursor invariant and the teardown *)

Section Lifecycle.

Lemma pool_at_lookup sys ps i :
  pools sys = Some ps -> pool_at sys i = ps !! i.
Proof. intros H. unfold pool_at. now rewrite H. Qed.

Lemma alloc_end_no_wrap sys p align :
  0 <= offset p ->
  no_wrap sys p align ->
  offset p <= alloc_end sys p align.
Proof.
  intros Hoff (Hal & Hlt & Hsz & Hend).
  assert (Ha : 1 <= alloc_align align).
  { unfold alloc_align. destruct (Z.eqb_spec align 0); lia. }
  assert (Hge : offset p <= alloc_off p align).
  { unfold alloc_off. apply align_up_ge; lia. }
  unfold alloc_end. rewrite wrap64_small by (unfold is_size_t; lia). lia.
Qed.

Lemma alloc_preserves_inv sys nd align r sys' :
  sys_inv sys ->
  ndp_mempool_alloc_on_node sys nd align = Some (r, sys') ->
  sys_inv sys'.
Proof.
  intros Hinv Ha.
  destruct (alloc_inv _ _ _ _ _ Ha)
    as [[_ ->] | (ps & p & _ & Hps & Hp & Hle & _ & ->)]; [exact Hinv|].
  intros ps' [= <-]. apply Forall_insert; [now apply Hinv|].
  unfold pool_inv; cbn. split; [|exact Hle].
  unfold alloc_end. apply wrap64_range.
Qed.

Lemma alloc_monotone sys nd align r sys' i p :
  sys_inv sys ->
  ndp_mempool_alloc_on_node sys nd align = Some (r, sys') ->
  pool_at sys i = Some p ->
  (i = Z.to_nat nd -> no_wrap sys p align) ->
  exists p',
    pool_at sys' i = Some p' /\ size p' = size p /\ offset p <= offset p'.
Proof.
  intros Hinv Ha Hi Hnw.
  destruct (alloc_inv _ _ _ _ _ Ha)
    as [[_ ->] | (ps & q & _ & Hps & Hq & Hle & _ & ->)].
  { exists p. split; [exact Hi|]. split; [reflexivity|lia]. }
  rewrite (pool_at_lookup _ _ _ Hps) in Hi.
  unfold pool_at, set_pools; cbn [pools].
  destruct (Nat.eq_dec i (Z.to_nat nd)) as [->|Hne].
  - assert (q = p) as -> by congruence.
    rewrite list_lookup_insert_eq by (eapply lookup_lt_Some; eauto).
    eexists. split; [reflexivity|]. split; [reflexivity|]. cbn.
    apply alloc_end_no_wrap; [|now apply Hnw].
    pose proof (Forall_lookup_1 _ _ _ _ (Hinv _ Hps) Hq) as Hp.
    unfold pool_inv in Hp. lia.
  - rewrite list_lookup_insert_ne by congruence.
    exists p. split; [exact Hi|]. split; [reflexivity|lia].
Qed.

(** C8, as stated, fails for the monotonicity of the cursor: the
    allocation accepts any alignment and its arithmetic wraps around; on a
    page-sized pool with 128 bytes in use an allocation with alignment
    2^64 - 1 is served at offset 0 and brings the cursor back to 64. *)
Lemma alloc_moves_cursor_back :
  exists r sys',
    ndp_mempool_alloc_on_node page_sys 0 (2 ^ 64 - 1) = Some (r, sys') /\
    sys_inv page_sys /\
    cursor page_sys 0 = Some 128 /\
    cursor sys' 0 = Some 64.
Proof.
  do 2 eexists. split; [vm_compute; reflexivity|]. split.
  { intros ps [= <-]. repeat constructor; cbn; lia. }
  split; reflexivity.
Qed.

(** C8, amended.  [0 <= cursor <= capacity] holds for every descriptor of
    a registry that [ndp_mempool_init] returns, with every cursor at 0,
    and is preserved by every allocation and by the teardown; an
    allocation never changes a capacity, and it never moves a cursor
    backwards provided its [size_t] arithmetic does not wrap around
    ([cursor + alignment - 1] and [off + size] stay below 2^64) and the
    size it adds, [pool_size] read as an [int], is not negative.  The
    descriptor a bootstrap thread publishes has its cursor at 0, within
    its capacity. *)
Theorem cursor_invariant :
  (forall pf sys0 sys tr,
     ndp_mempool_init pf sys0 = Some (0, sys, tr) ->
     sys_inv sys /\
     forall i p, pool_at sys i = Some p -> offset p = 0) /\
  (forall sys nd align r sys',
     sys_inv sys ->
     ndp_mempool_alloc_on_node sys nd align = Some (r, sys') ->
     sys_inv sys' /\
     forall i p,
       pool_at sys i = Some p ->
       (i = Z.to_nat nd -> no_wrap sys p align) ->
       exists p',
         pool_at sys' i = Some p' /\ size p' = size p /\
         offset p <= offset p') /\
  (forall sys sys' tr,
     sys_inv sys ->
     mempool_system_destroy sys = Some (sys', tr) ->
     sys_inv sys') /\
  (forall e a ps ps' tr,
     (pool a < length ps)%nat ->
     0 <= ta_size a ->
     ndp_node_init_thread e a ps = (0, ps', tr) ->
     exists p,
       ps' !! pool a = Some p /\ offset p = 0 /\ size p = ta_size a /\
       pool_inv p).
Proof.
  split; [|split; [|split]].
  - intros pf sys0 sys tr H.
    apply init_success_inv in H as (_ & _ & -> & _). split.
    + intros ps [= <-]. constructor.
    + intros i p Hp. unfold pool_at in Hp; cbn [pools] in Hp.
      now rewrite lookup_nil in Hp.
  - intros sys nd align r sys' Hinv Ha. split.
    + eapply alloc_preserves_inv; eauto.
    + intros i p Hi Hnw. eapply alloc_monotone; eauto.
  - intros sys sys' tr Hinv. unfold mempool_system_destroy.
    destruct (pools sys) as [ps|] eqn:Hps.
    + destruct (for_nodes _ _ _ _); [|discriminate].
      intros [= <- _]. intros ps' [=].
    + intros [= <- _]. exact Hinv.
  - intros e a ps ps' tr Hlen Hsz Hrun.
    rewrite thread_run in Hrun; cbn zeta in Hrun.
    injection Hrun as Hrv <- _. rewrite Hrv; cbn [Z.eqb].
    eexists. split; [now apply list_lookup_insert_eq|].
    split; [reflexivity|]. split; [reflexivity|].
    unfold pool_inv; cbn. lia.
Qed.

Lemma cursor_invariant_witness :
  (exists sys tr,
     ndp_mempool_init plat_single empty_sys = Some (0, sys, tr) /\
     sys_inv sys) /\
  (exists r sys' p',
     ndp_mempool_alloc_on_node roomy_sys 0 128 = Some (r, sys') /\
     sys_inv sys' /\
     pool_at sys' 0 = Some p' /\
     offset tight_pool <= offset p') /\
  (exists p,
     (ndp_node_init_thread (healthy 4096) (t_arg plat_one_ok 0)
        [zero_node]).1.2 !! 0%nat = Some p /\
     offset p = 0 /\ pool_inv p).
Proof.
  destruct cursor_invariant as (Hinit & Halloc & _ & Hthread).
  assert (Hroomy : sys_inv roomy_sys).
  { intros ps [= <-]. repeat constructor; cbn; lia. }
  split; [|split].
  - do 2 eexists. split; [vm_compute; reflexivity|].
    eapply (Hinit plat_single empty_sys). vm_compute. reflexivity.
  - destruct (Halloc roomy_sys 0 128 (4096 + 128)
                (set_pools roomy_sys [set_offset tight_pool 192]) Hroomy)
      as (Hinv' & Hmono).
    { vm_compute. reflexivity. }
    destruct (Hmono 0%nat tight_pool eq_refl) as (p' & Hp' & _ & Hle).
    { intros _. unfold no_wrap. vm_compute. repeat split; congruence. }
    do 3 eexists. split; [vm_compute; reflexivity|].
    split; [exact Hinv'|]. split; [exact Hp'|exact Hle].
  - edestruct (Hthread (healthy 4096) (t_arg plat_one_ok 0) [zero_node])
      as (p & Hp & Hoff & _ & Hinv).
    + simpl. lia.
    + vm_compute. discriminate.
    + vm_compute. reflexivity.
    + exists p. split; [exact Hp|]. split; [exact Hoff|exact Hinv].
Defined.

(** C9.  On a registry whose [pools] is [NULL] the teardown returns at
    once: it makes no call and changes nothing.  Hence, after a first
    teardown (which releases each live region once and leaves [pools]
    [NULL], [num_nodes] 0 and [pool_size] 0), a second teardown releases
    nothing and leaves the registry as the first one left it. *)
Theorem destroy_idempotent sys :
  sys_wf sys ->
  exists s1 t1,
    mempool_system_destroy sys = Some (s1, t1) /\
    pools s1 = None /\
    (forall ps, pools sys = Some ps ->
       s1 = empty_sys /\
       t1 = concat (map destroy_node ps) ++ [EvFreePools]) /\
    (pools sys = None -> s1 = sys /\ t1 = []) /\
    mempool_system_destroy s1 = Some (s1, []).
Proof.
  intros Hwf. unfold mempool_system_destroy at 1.
  destruct (pools sys) as [ps|] eqn:Hps.
  - specialize (Hwf ps Hps).
    replace (Z.to_nat (num_nodes sys)) with (length ps) by lia.
    rewrite for_nodes_all. do 2 eexists. split; [reflexivity|].
    split; [reflexivity|]. split.
    { intros ps' [= <-]. split; reflexivity. }
    split; [discriminate|reflexivity].
  - exists sys, []. split; [reflexivity|]. split; [exact Hps|].
    split; [discriminate|]. split; [auto|].
    unfold mempool_system_destroy. now rewrite Hps.
Qed.

Lemma destroy_idempotent_witness :
  exists s1 t1,
    mempool_system_destroy scenario_sys = Some (s1, t1) /\
    s1 = empty_sys /\
    t1 = [EvMunlock 4096 MiB; EvNumaFree 4096 MiB;
          EvMunlock 8388608 MiB; EvNumaFree 8388608 MiB; EvFreePools] /\
    mempool_system_destroy s1 = Some (s1, []).
Proof.
  destruct (destroy_idempotent scenario_sys)
    as (s1 & t1 & H1 & _ & H3 & _ & H5).
  - intros ps [= <-]. reflexivity.
  - destruct (H3 _ eq_refl) as [-> ->].
    exists empty_sys. eexists. split; [exact H1|].
    split; [reflexivity|]. split; [reflexivity|exact H5].
Defined.

End Lifecycle.

(** * Further properties of the file *)

Section MoreAlign.

Lemma align_up_nonneg x a : 0 <= align_up x a.
Proof.
  unfold align_up. apply Z.land_nonneg. left.
  pose proof (wrap64_range (x + a - 1)) as H. unfold is_size_t in H. lia.
Qed.

Lemma align_up_le x a :
  1 <= a <= 2 ^ 64 -> 0 <= x -> x + a - 1 < 2 ^ 64 ->
  align_up x a <= x + a - 1.
Proof.
  intros Ha Hx Hlt. rewrite align_up_unfold by assumption.
  assert (0 <= Z.land (x + a - 1) (a - 1)) by (apply Z.land_nonneg; lia).
  lia.
Qed.

Lemma align_up_zero a : is_size_t a -> 1 <= a -> align_up 0 a = 0.
Proof.
  intros Ha H1. unfold is_size_t in Ha.
  rewrite align_up_unfold by lia.
  replace (0 + a - 1) with (a - 1) by lia. rewrite Z.land_diag. lia.
Qed.

(** X1.  For an alignment that is a power of two and without wrap-around,
    [align_up] adds less than the alignment, leaves an aligned value
    where it is, and applied twice gives what it gives once. *)
Theorem align_up_padding x a :
  is_pow2 a -> 0 <= x -> x + a - 1 < 2 ^ 64 ->
  x <= align_up x a < x + a /\
  (x mod a = 0 -> align_up x a = x) /\
  align_up (align_up x a) a = align_up x a.
Proof.
  intros Hp Hx Hlt.
  pose proof (align_up_first_aligned x a Hp Hx Hlt) as (Hge & Hmod & Hmin).
  destruct Hp as (k & Hk & ->).
  assert (Hpos : 0 < 2 ^ k) by (apply Z.pow_pos_nonneg; lia).
  assert (Hle64 : 2 ^ k <= 2 ^ 64) by (apply Z.pow_le_mono_r; lia).
  pose proof (align_up_le x (2 ^ k) ltac:(lia) Hx Hlt) as Hle.
  assert (Hfix : forall y, 0 <= y -> y + 2 ^ k - 1 < 2 ^ 64 ->
                 y mod 2 ^ k = 0 -> align_up y (2 ^ k) = y).
  { intros y Hy Hylt Hymod.
    pose proof (align_up_first_aligned y (2 ^ k)
                  ltac:(exists k; auto) Hy Hylt) as (Hg & _ & Hm).
    specialize (Hm y ltac:(lia) Hymod). lia. }
  split; [lia|]. split; [now apply Hfix|].
  apply Hfix; [lia| |exact Hmod].
  (* a multiple of 2^k below 2^64 is at most 2^64 - 2^k *)
  apply Z.mod_divide in Hmod; [|lia]. destruct Hmod as [q Hq].
  replace (2 ^ 64) with (2 ^ (64 - k) * 2 ^ k) in *
    by (rewrite <- Z.pow_add_r by lia; f_equal; lia).
  assert (q < 2 ^ (64 - k)) by nia. nia.
Qed.

Lemma align_up_padding_witness :
  100 <= align_up 100 64 < 100 + 64 /\
  (128 mod 64 = 0 -> align_up 128 64 = 128) /\
  align_up (align_up 100 64) 64 = align_up 100 64.
Proof.
  assert (Hp : is_pow2 64) by (exists 6; split; [lia|reflexivity]).
  destruct (align_up_padding 100 64 Hp) as (H1 & _ & H3); [lia|lia|].
  destruct (align_up_padding 128 64 Hp) as (_ & H2 & _); [lia|lia|].
  auto.
Defined.

End MoreAlign.

Section MoreAlloc.

Lemma alloc_align_range align :
  is_size_t align -> is_size_t (alloc_align align) /\ 1 <= alloc_align align.
Proof.
  unfold is_size_t, alloc_align. intros H.
  destruct (Z.eqb_spec align 0); lia.
Qed.

Lemma set_pools_id sys ps : pools sys = Some ps -> set_pools sys ps = sys.
Proof. destruct sys; cbn. now intros ->. Qed.

(** A safe alignment keeps the arithmetic of an allocation from wrapping,
    whatever the cursor. *)
Lemma safe_no_wrap sys p align :
  pool_inv p -> 0 <= alloc_size sys -> safe_align sys p align ->
  no_wrap sys p align.
Proof.
  intros [Hlo Hhi] Hsz [Hal Hsafe].
  destruct (alloc_align_range align Hal) as [Hr H1].
  unfold is_size_t in Hr, Hal.
  assert (Hlt : offset p + alloc_align align - 1 < 2 ^ 64) by lia.
  pose proof (align_up_le (offset p) (alloc_align align)
                ltac:(lia) Hlo Hlt) as Hle.
  unfold no_wrap, alloc_off. repeat split; lia.
Qed.

(** A served block under [no_wrap]: where it lies and where the cursor
    ends up. *)
Lemma alloc_served_block sys nd align ps p :
  0 <= nd < num_nodes sys ->
  pools sys = Some ps ->
  ps !! Z.to_nat nd = Some p ->
  pool_inv p ->
  region_ok p ->
  no_wrap sys p align ->
  alloc_end sys p align <= size p ->
  ndp_mempool_alloc_on_node sys nd align =
    Some (base p + alloc_off p align,
          set_pools sys
            (<[Z.to_nat nd :=
                 set_offset p (alloc_off p align + alloc_size sys)]> ps)) /\
  offset p <= alloc_off p align /\
  alloc_off p align + alloc_size sys <= size p.
Proof.
  intros Hnd Hps Hp [Hlo Hhi] [Hb Hreg] Hnw Hfit.
  pose proof (alloc_end_no_wrap sys p align Hlo Hnw) as Hmono.
  destruct Hnw as (Hal & Hlt & Hsz & Hend).
  assert (Ha : 1 <= alloc_align align).
  { unfold alloc_align. destruct (Z.eqb_spec align 0); lia. }
  assert (Hge : offset p <= alloc_off p align).
  { unfold alloc_off. apply align_up_ge; lia. }
  assert (He : alloc_end sys p align = alloc_off p align + alloc_size sys).
  { unfold alloc_end. apply wrap64_small. unfold is_size_t. lia. }
  rewrite (alloc_valid_node _ _ _ _ _ Hnd Hps Hp).
  destruct (Z.gtb_spec (alloc_end sys p align) (size p)); [lia|].
  rewrite He in *. rewrite wrap64_small by (unfold is_size_t; lia).
  repeat split; lia.
Qed.

Lemma pool_at_set_pools sys ps i :
  pool_at (set_pools sys ps) i = ps !! i.
Proof. reflexivity. Qed.

Lemma alloc_frame_aux sys nd align r sys' :
  ndp_mempool_alloc_on_node sys nd align = Some (r, sys') ->
  num_nodes sys' = num_nodes sys /\
  pool_size sys' = pool_size sys /\
  forall i,
    fixed_part <$> pool_at sys' i = fixed_part <$> pool_at sys i /\
    (i <> Z.to_nat nd -> pool_at sys' i = pool_at sys i).
Proof.
  intros Ha.
  destruct (alloc_inv _ _ _ _ _ Ha)
    as [[_ ->] | (ps & p & _ & Hps & Hp & _ & _ & ->)]; [auto|].
  split; [reflexivity|]. split; [reflexivity|]. intros i.
  rewrite pool_at_set_pools, (pool_at_lookup _ _ _ Hps).
  destruct (Nat.eq_dec i (Z.to_nat nd)) as [->|Hne].
  - rewrite list_lookup_insert_eq by (eapply lookup_lt_Some; eauto).
    rewrite Hp. split; [reflexivity|congruence].
  - rewrite list_lookup_insert_ne by congruence. auto.
Qed.

(** X2.  An allocation, served or not, writes nothing but the cursor of
    the pool it is asked for: [num_nodes], [pool_size], the descriptors of
    the other nodes and the base, capacity and node id of its own pool
    are as before. *)
Theorem alloc_frame sys nd align r sys' :
  ndp_mempool_alloc_on_node sys nd align = Some (r, sys') ->
  num_nodes sys' = num_nodes sys /\
  pool_size sys' = pool_size sys /\
  forall i,
    fixed_part <$> pool_at sys' i = fixed_part <$> pool_at sys i /\
    (i <> Z.to_nat nd -> pool_at sys' i = pool_at sys i).
Proof. apply alloc_frame_aux. Qed.

Lemma alloc_frame_witness :
  exists r sys',
    ndp_mempool_alloc_on_node fresh_sys 0 64 = Some (r, sys') /\
    num_nodes sys' = 2 /\
    pool_size sys' = 1000 /\
    fixed_part <$> pool_at sys' 0 = Some (4096, 4096, 0) /\
    pool_at sys' 1 = Some zero_node.
Proof.
  do 2 eexists. split; [vm_compute; reflexivity|].
  destruct (alloc_frame fresh_sys 0 64 4096
              (set_pools fresh_sys [set_offset fresh_pool 1000; zero_node]))
    as (H1 & H2 & H3).
  { vm_compute. reflexivity. }
  split; [exact H1|]. split; [exact H2|].
  split; [apply (H3 0%nat)|]. apply (H3 1%nat). discriminate.
Defined.

Lemma alloc_defined_aux sys nd align :
  registry_ok sys ->
  exists r sys',
    ndp_mempool_alloc_on_node sys nd align = Some (r, sys') /\
    registry_ok sys'.
Proof.
  intros Hok. unfold ndp_mempool_alloc_on_node.
  destruct (Z.ltb_spec nd 0) as [|Hlo]; cbn [orb]; [eauto|].
  destruct (Z.geb_spec nd (num_nodes sys)) as [|Hhi]; [eauto|].
  unfold registry_ok in Hok.
  destruct (pools sys) as [ps|] eqn:Hps; [|lia].
  destruct (lookup_lt_is_Some_2 ps (Z.to_nat nd) ltac:(lia)) as [p Hp].
  rewrite Hp.
  destruct (alloc_end sys p align >? size p).
  - do 2 eexists. split; [reflexivity|]. unfold registry_ok. now rewrite Hps.
  - do 2 eexists. split; [reflexivity|].
    unfold registry_ok; cbn. now rewrite length_insert.
Qed.

(** X3.  On a registry whose array has [num_nodes] descriptors (or that
    has no array and no node) an allocation reads and writes inside the
    array for every node id and alignment, and leaves such a registry. *)
Theorem alloc_defined sys nd align :
  registry_ok sys ->
  exists r sys',
    ndp_mempool_alloc_on_node sys nd align = Some (r, sys') /\
    registry_ok sys'.
Proof. apply alloc_defined_aux. Qed.

Lemma alloc_defined_witness :
  exists r sys',
    ndp_mempool_alloc_on_node fresh_sys 1 8 = Some (r, sys') /\
    registry_ok sys'.
Proof. apply (alloc_defined fresh_sys 1 8). reflexivity. Defined.

(** X4.  A served block lies inside the region of its pool, in the part
    that was free: it starts at or after the old cursor and ends at or
    before the capacity, and the new cursor is its end.  (Arithmetic
    without wrap-around, region inside the address space.) *)
Theorem alloc_block_in_region sys nd align ps p :
  0 <= nd < num_nodes sys ->
  pools sys = Some ps ->
  ps !! Z.to_nat nd = Some p ->
  pool_inv p ->
  region_ok p ->
  no_wrap sys p align ->
  alloc_end sys p align <= size p ->
  exists r sys',
    ndp_mempool_alloc_on_node sys nd align = Some (r, sys') /\
    base p + offset p <= r /\
    r + alloc_size sys <= base p + size p /\
    cursor sys' (Z.to_nat nd) = Some (r - base p + alloc_size sys).
Proof.
  intros Hnd Hps Hp Hinv Hreg Hnw Hfit.
  destruct (alloc_served_block _ _ _ _ _ Hnd Hps Hp Hinv Hreg Hnw Hfit)
    as (Ha & Hge & Hle).
  do 2 eexists. split; [exact Ha|]. split; [lia|]. split; [lia|].
  rewrite (cursor_set_pools _ _ _ _ _ Hp). f_equal. lia.
Qed.

Lemma alloc_block_in_region_witness :
  exists r sys',
    ndp_mempool_alloc_on_node roomy_sys 0 128 = Some (r, sys') /\
    4096 + 64 <= r /\
    r + 64 <= 4096 + 192 /\
    cursor sys' 0 = Some (r - 4096 + 64).
Proof.
  apply (alloc_block_in_region roomy_sys 0 128 [tight_pool] tight_pool).
  - simpl; lia.
  - reflexivity.
  - reflexivity.
  - unfold pool_inv; simpl; lia.
  - unfold region_ok; simpl; lia.
  - unfold no_wrap. vm_compute. repeat split; congruence.
  - vm_compute. discriminate.
Defined.

(** X6.  A pool with fewer bytes left than one allocation takes serves
    nothing: whatever the alignment (arithmetic without wrap-around), the
    allocation returns [NULL] and changes nothing. *)
Theorem alloc_needs_room sys nd align ps p :
  0 <= nd < num_nodes sys ->
  pools sys = Some ps ->
  ps !! Z.to_nat nd = Some p ->
  pool_inv p ->
  no_wrap sys p align ->
  size p - offset p < alloc_size sys ->
  ndp_mempool_alloc_on_node sys nd align = Some (NULL, sys).
Proof.
  intros Hnd Hps Hp [Hlo _] Hnw Hroom.
  pose proof Hnw as (Hal & Hlt & Hsz & Hend).
  assert (Ha : 1 <= alloc_align align).
  { unfold alloc_align. destruct (Z.eqb_spec align 0); lia. }
  assert (Hge : offset p <= alloc_off p align).
  { unfold alloc_off. apply align_up_ge; lia. }
  assert (He : alloc_end sys p align = alloc_off p align + alloc_size sys).
  { unfold alloc_end. apply wrap64_small. unfold is_size_t. lia. }
  rewrite (alloc_valid_node _ _ _ _ _ Hnd Hps Hp).
  destruct (Z.gtb_spec (alloc_end sys p align) (size p)); [reflexivity|lia].
Qed.

Lemma alloc_needs_room_witness :
  ndp_mempool_alloc_on_node
    (set_pools tight_sys [set_offset tight_pool 100]) 0 1 =
  Some (NULL, set_pools tight_sys [set_offset tight_pool 100]).
Proof.
  apply (alloc_needs_room _ 0 1 [set_offset tight_pool 100]
           (set_offset tight_pool 100)).
  - simpl; lia.
  - reflexivity.
  - reflexivity.
  - unfold pool_inv; simpl; lia.
  - unfold no_wrap. vm_compute. repeat split; congruence.
  - vm_compute. reflexivity.
Defined.

(** X7.  On a descriptor that is still as [calloc] left it (a node whose
    bootstrap thread was never created) every allocation returns [NULL]
    and changes nothing, whatever the alignment and [pool_size]. *)
Theorem alloc_zero_node sys nd align ps :
  0 <= nd < num_nodes sys ->
  pools sys = Some ps ->
  ps !! Z.to_nat nd = Some zero_node ->
  is_size_t align ->
  ndp_mempool_alloc_on_node sys nd align = Some (NULL, sys).
Proof.
  intros Hnd Hps Hp Hal.
  destruct (alloc_align_range align Hal) as [Hr H1].
  assert (Hoff : alloc_off zero_node align = 0).
  { unfold alloc_off. cbn [offset zero_node]. now apply align_up_zero. }
  rewrite (alloc_valid_node _ _ _ _ _ Hnd Hps Hp).
  destruct (Z.gtb_spec (alloc_end sys zero_node align) (size zero_node))
    as [|Hle]; [reflexivity|].
  cbn [size base zero_node] in *.
  assert (He : alloc_end sys zero_node align = 0).
  { pose proof (wrap64_range (alloc_off zero_node align + alloc_size sys))
      as Hw. unfold is_size_t in Hw. unfold alloc_end in *. lia. }
  rewrite He, Hoff.
  change (set_offset zero_node 0) with zero_node.
  rewrite list_insert_id by exact Hp.
  now rewrite (set_pools_id _ _ Hps).
Qed.

Lemma alloc_zero_node_witness :
  ndp_mempool_alloc_on_node fresh_sys 1 64 = Some (NULL, fresh_sys).
Proof.
  apply (alloc_zero_node fresh_sys 1 64 [fresh_pool; zero_node]).
  - simpl; lia.
  - reflexivity.
  - reflexivity.
  - unfold is_size_t; lia.
Defined.

End MoreAlloc.

Section AllocSequences.

Lemma served_from_weaken sz hi lo lo' rs :
  lo <= lo' -> served_from sz hi lo' rs -> served_from sz hi lo rs.
Proof.
  revert lo lo'. induction rs as [|r rs IH]; intros lo lo' Hle; [auto|].
  cbn [served_from]. destruct (r =? NULL); [now apply IH|].
  intros (H1 & H2 & H3). repeat split; [lia|lia|exact H3].
Qed.

Lemma served_from_bounds sz hi lo rs i r :
  0 <= sz ->
  served_from sz hi lo rs ->
  rs !! i = Some r -> r <> NULL ->
  lo <= r /\ r + sz <= hi.
Proof.
  intros Hsz. revert lo i.
  induction rs as [|x rs IH]; intros lo i Hs Hi Hr; [discriminate|].
  cbn [served_from] in Hs. destruct i as [|i]; cbn in Hi.
  - injection Hi as ->.
    destruct (Z.eqb_spec r NULL); [contradiction|]. lia.
  - destruct (x =? NULL); [now apply (IH lo i)|].
    destruct Hs as (H1 & _ & H3).
    destruct (IH _ i H3 Hi Hr). lia.
Qed.

Lemma served_from_apart sz hi lo rs i j ri rj :
  0 <= sz ->
  served_from sz hi lo rs ->
  (i < j)%nat ->
  rs !! i = Some ri -> rs !! j = Some rj ->
  ri <> NULL -> rj <> NULL ->
  ri + sz <= rj.
Proof.
  intros Hsz. revert lo i j.
  induction rs as [|x rs IH]; intros lo i j Hs Hij Hi Hj Hri Hrj;
    [discriminate|].
  cbn [served_from] in Hs.
  destruct j as [|j]; [lia|]. cbn in Hj.
  destruct i as [|i]; cbn in Hi.
  - injection Hi as ->.
    destruct (Z.eqb_spec ri NULL); [contradiction|].
    destruct Hs as (_ & _ & H3).
    now destruct (served_from_bounds _ _ _ _ _ _ Hsz H3 Hj Hrj).
  - destruct (x =? NULL).
    + apply (IH lo i j); auto; lia.
    + destruct Hs as (_ & _ & H3). apply (IH (x + sz) i j); auto; lia.
Qed.

(** The pointers of a sequence of allocations form a chain of blocks
    above the cursor the sequence started from. *)
Lemma alloc_seq_served nd aligns :
  forall sys ps p rs sys',
    0 <= nd < num_nodes sys ->
    pools sys = Some ps ->
    ps !! Z.to_nat nd = Some p ->
    pool_inv p ->
    region_ok p ->
    0 <= alloc_size sys ->
    Forall (safe_align sys p) aligns ->
    alloc_seq sys nd aligns = Some (rs, sys') ->
    served_from (alloc_size sys) (base p + size p) (base p + offset p) rs.
Proof.
  induction aligns as [|align aligns IH];
    intros sys ps p rs sys' Hnd Hps Hp Hinv Hreg Hsz Hsafe Hseq.
  { injection Hseq as <- <-. exact I. }
  cbn [alloc_seq] in Hseq.
  apply Forall_cons in Hsafe as [Hsafe1 Hsafe].
  pose proof (safe_no_wrap _ _ _ Hinv Hsz Hsafe1) as Hnw.
  destruct (Z.gtb_spec (alloc_end sys p align) (size p)) as [Hgt|Hfit].
  - (* not served *)
    rewrite (alloc_valid_node _ _ _ _ _ Hnd Hps Hp) in Hseq.
    destruct (Z.gtb_spec (alloc_end sys p align) (size p)); [|lia].
    destruct (alloc_seq sys nd aligns) as [[rs1 sys2]|] eqn:Hrest;
      [|discriminate].
    injection Hseq as <- <-. cbn [served_from Z.eqb NULL].
    eapply IH; eauto.
  - (* served *)
    destruct (alloc_served_block _ _ _ _ _ Hnd Hps Hp Hinv Hreg Hnw Hfit)
      as (Ha & Hge & Hle).
    rewrite Ha in Hseq.
    set (p1 := set_offset p (alloc_off p align + alloc_size sys)) in *.
    set (sys1 := set_pools sys (<[Z.to_nat nd := p1]> ps)) in *.
    destruct (alloc_seq sys1 nd aligns) as [[rs1 sys2]|] eqn:Hrest;
      [|discriminate].
    injection Hseq as <- <-. cbn [served_from].
    destruct Hreg as [Hb Hr]. destruct Hinv as [Hlo Hhi].
    destruct (Z.eqb_spec (base p + alloc_off p align) NULL) as [He|_].
    { unfold NULL in He. lia. }
    split; [lia|]. split; [lia|].
    assert (Hp1 : <[Z.to_nat nd := p1]> ps !! Z.to_nat nd = Some p1).
    { apply list_lookup_insert_eq. eapply lookup_lt_Some; eauto. }
    specialize (IH sys1 _ p1 rs1 sys2 Hnd eq_refl Hp1).
    replace (base p + alloc_off p align + alloc_size sys)
      with (base p1 + offset p1) by (cbn; lia).
    apply IH; auto.
    + unfold pool_inv, p1; cbn. lia.
    + unfold region_ok, p1; cbn. lia.
Qed.

(** X5.  Allocations made one after the other on one node never overlap:
    of any two pointers returned that are not [NULL], the later one lies
    at or after the end of the block of the earlier one, and both blocks
    lie between the cursor the sequence started from and the end of the
    region.  (Alignments that cannot make the arithmetic wrap; a size
    that is not negative.) *)
Theorem alloc_seq_disjoint sys nd aligns ps p rs sys' i j ri rj :
  0 <= nd < num_nodes sys ->
  pools sys = Some ps ->
  ps !! Z.to_nat nd = Some p ->
  pool_inv p ->
  region_ok p ->
  0 <= alloc_size sys ->
  Forall (safe_align sys p) aligns ->
  alloc_seq sys nd aligns = Some (rs, sys') ->
  (i < j)%nat ->
  rs !! i = Some ri -> rs !! j = Some rj ->
  ri <> NULL -> rj <> NULL ->
  base p + offset p <= ri /\
  ri + alloc_size sys <= rj /\
  rj + alloc_size sys <= base p + size p.
Proof.
  intros Hnd Hps Hp Hinv Hreg Hsz Hsafe Hseq Hij Hi Hj Hri Hrj.
  pose proof (alloc_seq_served _ _ _ _ _ _ _ Hnd Hps Hp Hinv Hreg Hsz Hsafe
                Hseq) as Hs.
  destruct (served_from_bounds _ _ _ _ _ _ Hsz Hs Hi Hri) as [H1 _].
  destruct (served_from_bounds _ _ _ _ _ _ Hsz Hs Hj Hrj) as [_ H2].
  pose proof (served_from_apart _ _ _ _ _ _ _ _ Hsz Hs Hij Hi Hj Hri Hrj).
  auto.
Qed.

Lemma alloc_seq_disjoint_witness :
  exists rs sys',
    alloc_seq fresh_sys 0 [64; 64; 1; 64; 64] = Some (rs, sys') /\
    rs = [4096; 5120; 6120; 7168; NULL] /\
    4096 + 0 <= 5120 /\
    5120 + 1000 <= 7168 /\
    7168 + 1000 <= 4096 + 4096.
Proof.
  do 2 eexists. split; [vm_compute; reflexivity|]. split; [reflexivity|].
  refine (alloc_seq_disjoint fresh_sys 0 [64; 64; 1; 64; 64]
            [fresh_pool; zero_node] fresh_pool
            [4096; 5120; 6120; 7168; NULL] _ 1%nat 3%nat 5120 7168
            _ _ _ _ _ _ _ _ _ _ _ _ _).
  - simpl; lia.
  - reflexivity.
  - reflexivity.
  - unfold pool_inv; simpl; lia.
  - unfold region_ok; simpl; lia.
  - vm_compute. discriminate.
  - repeat constructor; vm_compute; congruence.
  - vm_compute. reflexivity.
  - lia.
  - reflexivity.
  - reflexivity.
  - discriminate.
  - discriminate.
Defined.

End AllocSequences.

Section MoreBoot.

(** X8.  The affinity binder returns 0 when the mask could be allocated,
    the CPUs of the node were found and the affinity was set, and -1
    otherwise; the value agrees with [ndp_bind_thread_to_node].  A mask
    that was allocated is given back exactly once, as the last call, on
    every path; nothing is given back when the allocation failed. *)
Theorem bind_releases_mask e :
  (ndp_bind_thread_to_node_run e).1 = ndp_bind_thread_to_node e /\
  ((ndp_bind_thread_to_node_run e).1 = 0 <->
   cpumask e <> NULL /\ node_to_cpus e = 0 /\ sched_setaffinity e = 0) /\
  ((ndp_bind_thread_to_node_run e).1 <> 0 ->
   (ndp_bind_thread_to_node_run e).1 = -1) /\
  (cpumask e = NULL -> mask_frees (ndp_bind_thread_to_node_run e).2 = 0%nat) /\
  (cpumask e <> NULL ->
   mask_frees (ndp_bind_thread_to_node_run e).2 = 1%nat /\
   last (ndp_bind_thread_to_node_run e).2 = Some CallFreeCpumask).
Proof.
  unfold ndp_bind_thread_to_node_run, ndp_bind_thread_to_node.
  destruct (Z.eqb_spec (cpumask e) NULL) as [Hm|Hm]; cbn;
    [repeat split; intros; try discriminate; intuition congruence|].
  destruct (Z.eqb_spec (node_to_cpus e) 0) as [Hn|Hn]; cbn;
    [|repeat split; intros; try discriminate; intuition congruence].
  destruct (Z.eqb_spec (sched_setaffinity e) 0) as [Hs|Hs]; cbn;
    repeat split; intros; try discriminate; intuition congruence.
Qed.

Lemma bind_releases_mask_witness :
  (ndp_bind_thread_to_node_run (healthy 4096)).1 = 0 /\
  mask_frees (ndp_bind_thread_to_node_run (healthy 4096)).2 = 1%nat /\
  last (ndp_bind_thread_to_node_run (healthy 4096)).2 = Some CallFreeCpumask.
Proof.
  destruct (bind_releases_mask (healthy 4096)) as (_ & H2 & _ & _ & H5).
  split.
  - apply H2. repeat split; vm_compute; congruence.
  - apply H5. vm_compute. congruence.
Defined.

Lemma warm_loop_spec p count :
  forall off m a,
    warm_loop p off count m a =
      if (p + off <=? a) && (a <? p + off + Z.of_nat count) then 0 else m a.
Proof.
  induction count as [|c IH]; intros off m a.
  - cbn [warm_loop].
    destruct (Z.leb_spec (p + off) a), (Z.ltb_spec a (p + off + Z.of_nat 0));
      cbn; try reflexivity; lia.
  - cbn [warm_loop]. rewrite IH. unfold store.
    destruct (Z.leb_spec (p + (off + 1)) a),
             (Z.ltb_spec a (p + (off + 1) + Z.of_nat c)),
             (Z.leb_spec (p + off) a),
             (Z.ltb_spec a (p + off + Z.of_nat (S c))),
             (Z.eqb_spec a (p + off));
      cbn; try reflexivity; lia.
Qed.

(** X9.  [warm_pages] writes 0 to every byte of the region
    [base, base + size) and to no other address. *)
Theorem warm_pages_zeroes b sz m a :
  warm_pages b sz m a = if (b <=? a) && (a <? b + sz) then 0 else m a.
Proof.
  unfold warm_pages. rewrite warm_loop_spec.
  destruct (Z.leb_spec (b + 0) a), (Z.leb_spec b a),
           (Z.ltb_spec a (b + 0 + Z.of_nat (Z.to_nat sz))),
           (Z.ltb_spec a (b + sz));
    cbn; try reflexivity; lia.
Qed.

(** X10.  A bootstrap thread either exits with 0, having written its own
    descriptor (base the region it obtained, capacity [a->size], cursor
    0, node [a->node]) and no other, and holding one region that it
    pinned; or it exits with -1, having written nothing and holding no
    region and no pin. *)
Theorem thread_publishes_or_nothing e a ps :
  (pool a < length ps)%nat ->
  exists rv ps' tr,
    ndp_node_init_thread e a ps = (rv, ps', tr) /\
    ((rv = 0 /\
      alloc_onnode e <> NULL /\
      ps' !! pool a =
        Some {| base := alloc_onnode e; size := ta_size a; offset := 0;
                node := ta_node a |} /\
      (forall j, j <> pool a -> ps' !! j = ps !! j) /\
      tr = [EvNumaAlloc (alloc_onnode e) (ta_size a) (ta_node a);
            EvMlock (alloc_onnode e) (ta_size a)]) \/
     (rv = -1 /\ ps' = ps /\
      forall x, net (region_weight x) tr = 0 /\ net (pin_weight x) tr = 0)).
Proof.
  intros Hlen. rewrite thread_run; cbn zeta.
  do 3 eexists. split; [reflexivity|].
  destruct (thread_exit_values e a []) as [H0 | H1].
  - left. rewrite H0; cbn [Z.eqb].
    destruct (thread_success _ _ H0) as [Hne Htr].
    split; [reflexivity|]. split; [exact Hne|].
    split; [now apply list_lookup_insert_eq|].
    split; [|exact Htr].
    intros j Hj. apply list_lookup_insert_ne. congruence.
  - right. rewrite H1; cbn [Z.eqb].
    split; [reflexivity|]. split; [reflexivity|].
    assert (Hne : (ndp_node_init_thread e a []).1.1 <> 0) by lia.
    intros x. split; apply thread_failure_balanced; auto.
Qed.

Lemma thread_publishes_or_nothing_witness :
  exists rv ps' tr,
    ndp_node_init_thread (unpinnable 12288) (t_arg plat_pin1 1)
      [zero_node; zero_node] = (rv, ps', tr) /\
    rv = -1 /\ ps' = [zero_node; zero_node] /\
    net (region_weight 12288) tr = 0.
Proof.
  destruct (thread_publishes_or_nothing (unpinnable 12288) (t_arg plat_pin1 1)
              [zero_node; zero_node])
    as (rv & ps' & tr & Hrun & [(H0 & _) | (H1 & H2 & H3)]).
  - simpl. lia.
  - vm_compute in Hrun. injection Hrun as <- _ _. discriminate.
  - exists rv, ps', tr. repeat split; auto. apply H3.
Defined.

End MoreBoot.

Section MoreLifecycle.

Lemma settled_nil : settled [].
Proof. intros a len. split; reflexivity. Qed.

Lemma settled_app t1 t2 : settled t1 -> settled t2 -> settled (t1 ++ t2).
Proof.
  intros H1 H2 a len. destruct (H1 a len), (H2 a len).
  rewrite !net_app. lia.
Qed.

Lemma settled_free_pools : settled [EvFreePools].
Proof. intros a len. split; reflexivity. Qed.

Lemma started_true pf i : started pf i = true <-> pthread_create pf i = 0.
Proof. unfold started. apply Z.eqb_eq. Qed.

Lemma init_failure_clean_aux pf sys rc sys' tr :
  ndp_mempool_init pf sys = Some (rc, sys', tr) ->
  (rc = 0 \/ rc = -1) /\
  (rc = -1 ->
   settled tr /\ ((sys' = sys /\ tr = []) \/ pools sys' = None)).
Proof.
  intros H.
  destruct (init_cases pf sys) as [(_ & He) | [(_ & _ & _ & He) | (Hr & Hn)]].
  - rewrite He in H. injection H as <- <- <-.
    split; [now right|]. intros _. split; [apply settled_nil|now left].
  - rewrite He in H. injection H as <- <- <-.
    split; [now right|]. intros _. split; [apply settled_nil|now right].
  - destruct (Z.eq_dec (numa_max_node pf) 0) as [H0|H0].
    { rewrite (init_zero_nodes _ _ Hr H0) in H. injection H as <- <- <-.
      split; [now left|]. discriminate. }
    destruct (Z.eq_dec (numa_max_node pf) 1) as [H1|H1].
    2:{ rewrite init_many_nodes in H by (auto; lia). discriminate. }
    rewrite (init_one_node _ _ Hr H1) in H.
    destruct (calloc_scratch pf); [|discriminate].
    destruct (started pf 0); [|discriminate].
    destruct (Z.eqb_spec (exit_of pf 0) 0) as [|Hex]; [discriminate|].
    cbn [negb andb] in H. injection H as <- <- <-.
    split; [now right|]. intros _. split; [|now right].
    apply settled_app; [|apply settled_free_pools].
    now apply thread_failure_settled.
Qed.

(** X11.  [ndp_mempool_init] returns 0 or -1.  When it returns -1 every
    region obtained during the call has been given back with its length
    and no pin is left, and the registry is either untouched (no call was
    made) or has a [NULL] array. *)
Theorem init_failure_clean pf sys rc sys' tr :
  ndp_mempool_init pf sys = Some (rc, sys', tr) ->
  (rc = 0 \/ rc = -1) /\
  (rc = -1 ->
   settled tr /\ ((sys' = sys /\ tr = []) \/ pools sys' = None)).
Proof. apply init_failure_clean_aux. Qed.

Lemma init_failure_clean_witness :
  exists sys' tr,
    ndp_mempool_init plat_one_fail scenario_sys = Some (-1, sys', tr) /\
    tr = [EvNumaAlloc 12288 140737488351232 0;
          EvNumaFree 12288 140737488351232; EvFreePools] /\
    settled tr /\ pools sys' = None.
Proof.
  do 2 eexists. split; [vm_compute; reflexivity|]. split; [reflexivity|].
  edestruct (init_failure_clean plat_one_fail scenario_sys) as (_ & H).
  { vm_compute. reflexivity. }
  destruct (H eq_refl) as (Hb & _). split; [exact Hb|reflexivity].
Defined.

(** X12.  [ndp_mempool_init] has no defined result exactly when it
    passes its early exits and either [numa_max_node()] is 2 or more, or
    it is 1 and the [calloc] of the scratch arrays fails, or the thread
    of node 0 is not created (it is joined all the same), or that thread
    succeeds (it writes its descriptor beyond the 8 bytes of the
    block). *)
Theorem init_undefined pf sys :
  ndp_mempool_init pf sys = None <->
  reaches_boot pf /\
  (2 <= numa_max_node pf \/
   numa_max_node pf = 1 /\
   (calloc_scratch pf = false \/ pthread_create pf 0 <> 0 \/
    exit_of pf 0 = 0)).
Proof.
  split.
  - intros H.
    destruct (init_cases pf sys) as [(_ & He) | [(_ & _ & _ & He) | (Hr & Hn)]];
      try congruence.
    split; [exact Hr|].
    destruct (Z.eq_dec (numa_max_node pf) 0) as [H0|H0].
    { rewrite (init_zero_nodes _ _ Hr H0) in H. discriminate. }
    destruct (Z.eq_dec (numa_max_node pf) 1) as [H1|H1]; [|left; lia].
    right. split; [exact H1|].
    rewrite (init_one_node _ _ Hr H1) in H.
    destruct (calloc_scratch pf); [|now left]. right.
    unfold started in H.
    destruct (Z.eqb_spec (pthread_create pf 0) 0); [|now left]. right.
    destruct (Z.eqb_spec (exit_of pf 0) 0); [assumption|discriminate].
  - intros (Hr & [Hn | (H1 & Hwhy)]).
    { now apply init_many_nodes. }
    rewrite (init_one_node _ _ Hr H1). unfold started.
    destruct Hwhy as [-> | [Hc | ->]]; [reflexivity| |].
    + destruct (Z.eqb_spec (pthread_create pf 0) 0); [contradiction|].
      now rewrite andb_false_r.
    + cbn. now rewrite andb_false_r.
Qed.

Lemma init_undefined_witness :
  ndp_mempool_init plat_one_ok empty_sys = None /\
  ndp_mempool_init plat_noscratch empty_sys = None.
Proof.
  split.
  - apply (init_undefined plat_one_ok empty_sys).
    split; [repeat split; vm_compute; congruence|].
    right. split; [reflexivity|]. right; right. reflexivity.
  - apply (init_undefined plat_noscratch empty_sys).
    split; [repeat split; vm_compute; congruence|].
    left. vm_compute. congruence.
Defined.

(** X13.  When [calloc] of the descriptors fails, [ndp_mempool_init]
    returns -1 after it has stored [num_nodes] and [pool_size]: the
    registry keeps the node count with a [NULL] array, so an allocation
    on any node below that count indexes the [NULL] array, while a
    teardown does nothing. *)
Theorem init_calloc_failure pf sys :
  0 <= numa_available pf ->
  to_int (numa_node_size pf) <> -1 ->
  calloc_pools pf = false ->
  exists sys',
    ndp_mempool_init pf sys = Some (-1, sys', []) /\
    pools sys' = None /\
    num_nodes sys' = numa_max_node pf /\
    pool_size sys' = boot_psz pf /\
    (forall nd align, 0 <= nd < numa_max_node pf ->
       ndp_mempool_alloc_on_node sys' nd align = None) /\
    mempool_system_destroy sys' = Some (sys', []).
Proof.
  intros Hav Hsz Hc.
  destruct (init_cases pf sys)
    as [([Ha | Ha] & _) | [(_ & _ & _ & He) | ((_ & _ & Hc') & _)]];
    try lia; try congruence.
  eexists. split; [exact He|]. repeat split.
  intros nd align Hnd. unfold ndp_mempool_alloc_on_node; cbn.
  destruct (Z.ltb_spec nd 0); [lia|].
  destruct (Z.geb_spec nd (numa_max_node pf)); [lia|]. reflexivity.
Qed.

Lemma init_calloc_failure_witness :
  exists sys',
    ndp_mempool_init plat_nomem empty_sys = Some (-1, sys', []) /\
    num_nodes sys' = 2 /\
    ndp_mempool_alloc_on_node sys' 0 64 = None.
Proof.
  destruct (init_calloc_failure plat_nomem empty_sys)
    as (sys' & H1 & _ & H3 & _ & H5 & _).
  - vm_compute. congruence.
  - vm_compute. congruence.
  - reflexivity.
  - exists sys'. split; [exact H1|]. split; [exact H3|].
    apply H5. vm_compute. split; congruence.
Defined.

(** X14.  [ndp_mempool_init] returns 0 only on a platform where
    [numa_max_node()] is 0: the registry of a successful call has an
    array of no descriptor, [num_nodes] 0 and the node size as
    [pool_size], no region was obtained for it, and every allocation on
    it returns [NULL]. *)
Theorem init_success_shape pf sys0 sys tr :
  ndp_mempool_init pf sys0 = Some (0, sys, tr) ->
  numa_max_node pf = 0 /\
  sys = {| pools := Some []; num_nodes := 0; pool_size := boot_psz pf |} /\
  registry_ok sys /\
  tr = [] /\
  forall nd align, ndp_mempool_alloc_on_node sys nd align = Some (NULL, sys).
Proof.
  intros H. apply init_success_inv in H as (_ & Hn & -> & ->).
  repeat split; auto.
  intros nd align. apply alloc_out_of_range. cbn. lia.
Qed.

Lemma init_success_shape_witness :
  exists sys,
    ndp_mempool_init plat_single scenario_sys = Some (0, sys, []) /\
    numa_max_node plat_single = 0 /\
    pools sys = Some [] /\
    pool_size sys = MiB /\
    ndp_mempool_alloc_on_node sys 0 64 = Some (NULL, sys).
Proof.
  eexists. split; [vm_compute; reflexivity|].
  edestruct (init_success_shape plat_single scenario_sys)
    as (H1 & H2 & _ & _ & H5).
  { vm_compute. reflexivity. }
  split; [exact H1|]. split; [reflexivity|]. split; [reflexivity|]. apply H5.
Defined.

(** X20.  When [numa_max_node()] is 1 and the thread of node 0 is
    created and fails, [ndp_mempool_init] returns -1: the calls made are
    those of the thread and the [free] of the descriptors, nothing is
    unpinned or released by the rollback, every region the thread
    obtained has been given back with its length, and the registry is
    left with a [NULL] array and no node, so that every allocation on it
    returns [NULL]. *)
Theorem init_one_node_failure pf sys0 :
  reaches_boot pf ->
  numa_max_node pf = 1 ->
  calloc_scratch pf = true ->
  pthread_create pf 0 = 0 ->
  exit_of pf 0 <> 0 ->
  exists sys tr,
    ndp_mempool_init pf sys0 = Some (-1, sys, tr) /\
    pools sys = None /\
    num_nodes sys = 0 /\
    tr = thread_events pf 0 ++ [EvFreePools] /\
    settled tr /\
    forall nd align, ndp_mempool_alloc_on_node sys nd align = Some (NULL, sys).
Proof.
  intros Hr H1 Hs Hc Hex.
  rewrite (init_one_node _ _ Hr H1), Hs.
  apply started_true in Hc. rewrite Hc.
  destruct (Z.eqb_spec (exit_of pf 0) 0); [contradiction|]. cbn [negb andb].
  do 2 eexists. split; [reflexivity|]. repeat split.
  - apply settled_app; [|apply settled_free_pools].
    now apply thread_failure_settled.
  - apply settled_app; [|apply settled_free_pools].
    now apply thread_failure_settled.
  - intros nd align. apply alloc_out_of_range. cbn. lia.
Qed.

Lemma init_one_node_failure_witness :
  exists sys tr,
    ndp_mempool_init plat_one_fail empty_sys = Some (-1, sys, tr) /\
    pools sys = None /\
    tr = [EvNumaAlloc 12288 140737488351232 0;
          EvNumaFree 12288 140737488351232; EvFreePools] /\
    settled tr.
Proof.
  destruct (init_one_node_failure plat_one_fail empty_sys)
    as (sys & tr & H1 & H2 & _ & H4 & H5 & _).
  - repeat split; vm_compute; congruence.
  - reflexivity.
  - reflexivity.
  - reflexivity.
  - vm_compute. discriminate.
  - exists sys, tr. auto.
Defined.

End MoreLifecycle.

Section WholeLife.

(** ** From init to destroy *)

Lemma map_insert_same {A B} (f : A -> B) l i x p :
  l !! i = Some p -> f x = f p -> map f (<[i := x]> l) = map f l.
Proof.
  revert i. induction l as [|y l IH]; intros i Hi Hf; [reflexivity|].
  destruct i as [|i]; cbn in *.
  - injection Hi as ->. now rewrite Hf.
  - f_equal. now apply IH.
Qed.

Lemma alloc_fixed_parts sys nd align r sys' :
  ndp_mempool_alloc_on_node sys nd align = Some (r, sys') ->
  fixed_parts sys' = fixed_parts sys /\ num_nodes sys' = num_nodes sys.
Proof.
  intros Ha.
  destruct (alloc_inv _ _ _ _ _ Ha)
    as [[_ ->] | (ps & p & _ & Hps & Hp & _ & _ & ->)]; [auto|].
  split; [|reflexivity]. unfold fixed_parts; cbn [pools set_pools option_map].
  rewrite Hps; cbn [option_map]. f_equal.
  now apply (map_insert_same fixed_part ps _ _ p).
Qed.

Lemma alloc_steps_fixed_parts sys sys' :
  alloc_steps sys sys' ->
  fixed_parts sys' = fixed_parts sys /\ num_nodes sys' = num_nodes sys.
Proof.
  induction 1 as [|sys nd align r sys1 sys2 Ha _ [IH1 IH2]]; [auto|].
  destruct (alloc_fixed_parts _ _ _ _ _ Ha) as [H1 H2].
  split; congruence.
Qed.

Lemma destroy_node_release p : destroy_node p = release_of (fixed_part p).
Proof. reflexivity. Qed.

Lemma destroy_populated sys ps :
  pools sys = Some ps ->
  Z.of_nat (length ps) = num_nodes sys ->
  mempool_system_destroy sys =
    Some (empty_sys,
          concat (map release_of (map fixed_part ps)) ++ [EvFreePools]).
Proof.
  intros Hps Hlen. unfold mempool_system_destroy. rewrite Hps.
  replace (Z.to_nat (num_nodes sys)) with (length ps) by lia.
  rewrite for_nodes_all, map_map. reflexivity.
Qed.

Lemma destroy_then_alloc_aux sys :
  registry_ok sys ->
  exists s1 t,
    mempool_system_destroy sys = Some (s1, t) /\
    pools s1 = None /\
    registry_ok s1 /\
    forall nd align, ndp_mempool_alloc_on_node s1 nd align = Some (NULL, s1).
Proof.
  unfold registry_ok. intros Hok.
  destruct (pools sys) as [ps|] eqn:Hps.
  - rewrite (destroy_populated _ _ Hps Hok). do 2 eexists.
    split; [reflexivity|]. split; [reflexivity|].
    split; [cbn; lia|].
    intros nd align. apply alloc_out_of_range. cbn. lia.
  - unfold mempool_system_destroy. rewrite Hps.
    exists sys, []. split; [reflexivity|]. split; [exact Hps|].
    split; [now rewrite Hps|].
    intros nd align. apply alloc_out_of_range. lia.
Qed.

(** X16.  On a usable registry the teardown is defined and leaves a
    registry without array on which every allocation, for every node id
    and alignment, returns [NULL] without reading any descriptor. *)
Theorem destroy_then_alloc sys :
  registry_ok sys ->
  exists s1 t,
    mempool_system_destroy sys = Some (s1, t) /\
    pools s1 = None /\
    registry_ok s1 /\
    forall nd align, ndp_mempool_alloc_on_node s1 nd align = Some (NULL, s1).
Proof. apply destroy_then_alloc_aux. Qed.

Lemma destroy_then_alloc_witness :
  exists s1 t,
    mempool_system_destroy fresh_sys = Some (s1, t) /\
    ndp_mempool_alloc_on_node s1 0 64 = Some (NULL, s1).
Proof.
  destruct (destroy_then_alloc fresh_sys) as (s1 & t & H1 & _ & _ & H4).
  - reflexivity.
  - exists s1, t. auto.
Defined.

Lemma alloc_steps_no_nodes sys sys' :
  alloc_steps sys sys' -> num_nodes sys <= 0 -> sys' = sys.
Proof.
  induction 1 as [|sys nd align r sys1 sys2 Ha _ IH]; intros Hn;
    [reflexivity|].
  assert (Hout : nd < 0 \/ num_nodes sys <= nd) by lia.
  rewrite (alloc_out_of_range sys nd align Hout) in Ha.
  injection Ha as <- <-. now apply IH.
Qed.

(** X15.  After a successful [ndp_mempool_init] and any number of
    allocations on any nodes, the registry is as the bootstrap left it
    and [mempool_system_destroy] is defined: it frees the array, which is
    the only call made since the start of the bootstrap, and leaves the
    registry empty ([NULL] array, [num_nodes] 0, [pool_size] 0); no
    region and no pin is left. *)
Theorem lifecycle_settled pf sys0 sys tr sys' :
  ndp_mempool_init pf sys0 = Some (0, sys, tr) ->
  alloc_steps sys sys' ->
  exists tr',
    mempool_system_destroy sys' = Some (empty_sys, tr') /\
    sys' = sys /\
    tr ++ tr' = [EvFreePools] /\
    settled (tr ++ tr').
Proof.
  intros Hinit Hsteps.
  apply init_success_inv in Hinit as (_ & _ & -> & ->).
  apply alloc_steps_no_nodes in Hsteps as ->; [|cbn; lia].
  exists [EvFreePools]. repeat split.
Qed.

Lemma lifecycle_settled_witness :
  exists sys s1,
    ndp_mempool_init plat_single scenario_sys = Some (0, sys, []) /\
    ndp_mempool_alloc_on_node sys 0 64 = Some (NULL, s1) /\
    mempool_system_destroy s1 = Some (empty_sys, [EvFreePools]) /\
    settled [EvFreePools].
Proof.
  pose (s := {| pools := Some []; num_nodes := 0; pool_size := MiB |}).
  exists s, s. split; [vm_compute; reflexivity|].
  split; [vm_compute; reflexivity|].
  destruct (lifecycle_settled plat_single scenario_sys s [] s)
    as (tr' & H1 & _ & H3 & H4).
  { vm_compute. reflexivity. }
  { apply (alloc_steps_step s 0 64 NULL s s); [|apply alloc_steps_refl].
    vm_compute. reflexivity. }
  cbn [app] in H3, H4. subst tr'. split; [exact H1|exact H4].
Defined.

(** X17.  The test program has no defined result exactly when
    [ndp_mempool_init] has none.  Otherwise it exits with 1 after
    printing the init failure, when [ndp_mempool_init] returned -1; or,
    when it returned 0, the registry has no node, the allocation on node
    0 fails, and the program prints the allocation failure, frees the
    empty array and exits with 0.  On every path every region obtained
    has been given back with its length and no pin is left. *)
Theorem main_no_leak pf worker sys0 :
  (main pf worker sys0 = None <-> ndp_mempool_init pf sys0 = None) /\
  forall rc tr out,
    main pf worker sys0 = Some (rc, tr, out) ->
    settled tr /\
    ((rc = 1 /\ out = [MsgInitFailed] /\
      exists sys, ndp_mempool_init pf sys0 = Some (-1, sys, tr)) \/
     (rc = 0 /\ out = [MsgAllocFailed] /\ tr = [EvFreePools] /\
      exists sys, ndp_mempool_init pf sys0 = Some (0, sys, []))).
Proof.
  unfold main.
  destruct (ndp_mempool_init pf sys0) as [[[irc sys] itr]|] eqn:Hinit;
    [|split; [tauto|discriminate]].
  destruct (init_failure_clean_aux _ _ _ _ _ Hinit) as ([-> | ->] & Hfail).
  - (* init returned 0 *)
    apply init_success_inv in Hinit as (_ & _ & -> & ->).
    cbn. split; [split; discriminate|].
    intros rc tr out [= <- <- <-]. split; [apply settled_free_pools|].
    right. repeat split. eauto.
  - (* init returned -1 *)
    cbn [Z.eqb negb]. split; [split; discriminate|].
    intros rc tr out [= <- <- <-].
    destruct (Hfail eq_refl) as [Hb _]. split; [exact Hb|].
    left. eauto.
Qed.

Lemma main_no_leak_witness :
  (exists tr,
     main plat_one_fail (healthy 4096) scenario_sys =
       Some (1, tr, [MsgInitFailed]) /\ settled tr) /\
  main plat_single (healthy 4096) scenario_sys =
    Some (0, [EvFreePools], [MsgAllocFailed]).
Proof.
  split; [|vm_compute; reflexivity].
  eexists. split; [vm_compute; reflexivity|].
  destruct (main_no_leak plat_one_fail (healthy 4096) scenario_sys) as [_ H].
  edestruct H as [Hb _]; [vm_compute; reflexivity|exact Hb].
Defined.

End WholeLife.

Section Reachable.

Lemma alloc_keeps_ok sys nd align r sys' :
  registry_ok sys ->
  ndp_mempool_alloc_on_node sys nd align = Some (r, sys') ->
  registry_ok sys'.
Proof.
  intros Hok Ha.
  destruct (alloc_defined_aux sys nd align Hok) as (r' & s' & Ha' & Hok').
  congruence.
Qed.

(** X18.  Any number of allocations, on any nodes and with any
    alignments, keeps a usable registry usable and keeps
    [0 <= cursor <= capacity] for every pool; the node count,
    [pool_size] and the base, capacity and node id of every descriptor
    stay as they were. *)
Theorem alloc_steps_invariants sys sys' :
  registry_ok sys ->
  sys_inv sys ->
  alloc_steps sys sys' ->
  registry_ok sys' /\
  sys_inv sys' /\
  num_nodes sys' = num_nodes sys /\
  pool_size sys' = pool_size sys /\
  fixed_parts sys' = fixed_parts sys.
Proof.
  intros Hok Hinv Hsteps.
  induction Hsteps as [|sys nd align r sys1 sys2 Ha _ IH]; [auto|].
  destruct IH as (H1 & H2 & H3 & H4 & H5).
  { eapply alloc_keeps_ok; eauto. }
  { eapply alloc_preserves_inv; eauto. }
  destruct (alloc_frame_aux _ _ _ _ _ Ha) as (Hn & Hp & _).
  destruct (alloc_fixed_parts _ _ _ _ _ Ha) as [Hf _].
  repeat split; auto; congruence.
Qed.

Lemma alloc_steps_invariants_witness :
  exists s1 s2,
    ndp_mempool_alloc_on_node fresh_sys 0 64 = Some (4096, s1) /\
    ndp_mempool_alloc_on_node s1 0 64 = Some (5120, s2) /\
    registry_ok s2 /\ sys_inv s2 /\
    fixed_parts s2 = Some [(4096, 4096, 0); (0, 0, 0)].
Proof.
  do 2 eexists.
  split; [vm_compute; reflexivity|].
  split; [vm_compute; reflexivity|].
  edestruct (alloc_steps_invariants fresh_sys) as (H1 & H2 & _ & _ & H5).
  - reflexivity.
  - intros ps [= <-]. repeat constructor; cbn; lia.
  - eapply (alloc_steps_step _ 0 64); [vm_compute; reflexivity|].
    eapply (alloc_steps_step _ 0 64); [vm_compute; reflexivity|].
    apply alloc_steps_refl.
  - split; [exact H1|]. split; [exact H2|]. exact H5.
Defined.

(** X19.  When [numa_max_node()] returns 0 the bootstrap loops do not
    run: [ndp_mempool_init] creates no thread and obtains no region, and
    returns 0 with a registry of no node, on which every allocation
    returns [NULL]. *)
Theorem init_no_nodes pf sys0 :
  0 <= numa_available pf ->
  to_int (numa_node_size pf) <> -1 ->
  calloc_pools pf = true ->
  numa_max_node pf = 0 ->
  exists sys,
    ndp_mempool_init pf sys0 = Some (0, sys, []) /\
    pools sys = Some [] /\
    num_nodes sys = 0 /\
    forall nd align, ndp_mempool_alloc_on_node sys nd align = Some (NULL, sys).
Proof.
  intros Hav Hsz Hc Hn.
  assert (Hr : reaches_boot pf) by (unfold reaches_boot; auto).
  rewrite (init_zero_nodes _ _ Hr Hn).
  eexists. split; [reflexivity|]. repeat split.
  intros nd align. apply alloc_out_of_range. cbn. lia.
Qed.

Lemma init_no_nodes_witness :
  exists sys,
    ndp_mempool_init plat_single empty_sys = Some (0, sys, []) /\
    num_nodes sys = 0 /\
    ndp_mempool_alloc_on_node sys 0 64 = Some (NULL, sys).
Proof.
  destruct (init_no_nodes plat_single empty_sys)
    as (sys & H1 & _ & H3 & H4).
  - vm_compute. congruence.
  - vm_compute. congruence.
  - reflexivity.
  - reflexivity.
  - exists sys. auto.
Defined.

End Reachable.
